(** * Camera / viewport engine of graph-explorer

    A shallow embedding of the pan-and-zoom canvas of the repository:

    - the camera-based component (pure helpers [screenToCanvas],
      [canvasToScreen], [panCamera], [zoomCamera], its wheel handler and the
      transform its draw effect installs),
    - the incremental component of [src/Canvas.tsx], which composes
      [translate]/[scale] calls on a persistent 2D context and tracks
      [viewportTopLeft] and [scale] by hand,
    - the later version of the incremental component, with touch handlers
      and a second wheel sensitivity.

    Two readings of TypeScript's [number] are used.

    [number] is the exact reading: a rational, or the single value [NaN]
    that a division by zero produces and every later operation propagates.
    It has no rounding, no overflow and no underflow, and it does not tell
    [Infinity] from [NaN].  What is proved over it is a statement about the
    formulas of the program over exact arithmetic; a result that is meant
    to hold of the running program is stated so that rounding cannot enter
    it, or says that it is about exact arithmetic.

    [Double] is the arithmetic the program runs on, IEEE 754 binary64.  The
    camera helpers and the transform bookkeeping of the incremental
    component are written out over it as well, and the places where the
    program departs from the exact reading are evaluated there. *)

From Stdlib Require Import ZArith QArith Qcanon Bool List Lia.
From Stdlib Require PrimFloat.
Import ListNotations.

Local Open Scope Qc_scope.

(** ** Numbers

    The exact reading of a JavaScript number.  [Fin q] is the real number
    [q]; [NaN] is what a division by zero gives, and it absorbs every later
    operation.  The operations neither round nor overflow, and
    [+Infinity], [-Infinity] and [NaN] are one value. *)

Inductive number : Type :=
| Fin (q : Qc)
| NaN.

Declare Scope number_scope.
Delimit Scope number_scope with num.
Bind Scope number_scope with number.

Definition nadd (a b : number) : number :=
  match a, b with
  | Fin x, Fin y => Fin (x + y)
  | _, _ => NaN
  end.

Definition nsub (a b : number) : number :=
  match a, b with
  | Fin x, Fin y => Fin (x - y)
  | _, _ => NaN
  end.

Definition nmul (a b : number) : number :=
  match a, b with
  | Fin x, Fin y => Fin (x * y)
  | _, _ => NaN
  end.

Definition ndiv (a b : number) : number :=
  match a, b with
  | Fin x, Fin y => if Qc_eq_dec y 0 then NaN else Fin (x / y)
  | _, _ => NaN
  end.

Definition nneg (a : number) : number :=
  match a with
  | Fin x => Fin (- x)
  | NaN => NaN
  end.

(** Comparisons involving a non-finite value are false, as [NaN < x] is. *)
Definition nlt (a b : number) : Prop :=
  match a, b with
  | Fin x, Fin y => x < y
  | _, _ => False
  end.

Definition nle (a b : number) : Prop :=
  match a, b with
  | Fin x, Fin y => x <= y
  | _, _ => False
  end.

Definition isFinite (a : number) : bool :=
  match a with
  | Fin _ => true
  | NaN => false
  end.

Definition number_eqb (a b : number) : bool :=
  match a, b with
  | Fin x, Fin y => Qc_eq_bool x y
  | NaN, NaN => true
  | _, _ => false
  end.

Infix "+" := nadd : number_scope.
Infix "-" := nsub : number_scope.
Infix "*" := nmul : number_scope.
Infix "/" := ndiv : number_scope.
Notation "- a" := (nneg a) : number_scope.
Infix "<" := nlt : number_scope.
Infix "<=" := nle : number_scope.

(** Integer and decimal literals of the source. *)
Definition qz (n : Z) : Qc := Q2Qc (inject_Z n).
Definition lit (n : Z) : number := Fin (Q2Qc (inject_Z n)).
Definition frac (n : Z) (d : positive) : number := Fin (Q2Qc (n # d)).

Local Open Scope number_scope.

(** ** Points and cameras

    The fields [x], [y], [z] of a camera are [cx], [cy], [cz] here. *)

Record Point : Type := mkPoint { x : number; y : number }.

Record Camera : Type := mkCamera { cx : number; cy : number; cz : number }.

Definition ORIGIN : Point := {| x := lit 0; y := lit 0 |}.

Definition Point_eqb (p q : Point) : bool :=
  number_eqb (x p) (x q) && number_eqb (y p) (y q).

Definition Camera_eqb (c d : Camera) : bool :=
  number_eqb (cx c) (cx d) && number_eqb (cy c) (cy d)
  && number_eqb (cz c) (cz d).

(** ** The camera-based component *)

Module CameraCanvas.

Definition TOUCHPAD_ZOOM_SENS : number := lit 200.
Definition TOUCHPAD_PAN_SENS : number := lit 1.

Definition screenToCanvas (point : Point) (camera : Camera) : Point :=
  {| x := x point / cz camera - cx camera;
     y := y point / cz camera - cy camera |}.

Definition canvasToScreen (point : Point) (camera : Camera) : Point :=
  {| x := (x point + cx camera) * cz camera;
     y := (y point + cy camera) * cz camera |}.

Definition panCamera (camera : Camera) (dx dy : number) : Camera :=
  {| cx := cx camera - dx / cz camera;
     cy := cy camera - dy / cz camera;
     cz := cz camera |}.

Definition zoomCamera (camera : Camera) (point : Point) (dz : number)
  : Camera :=
  let zoom := cz camera - dz * cz camera in
  let p1 := screenToCanvas point camera in
  let p2 := screenToCanvas point
              {| cx := cx camera; cy := cy camera; cz := zoom |} in
  {| cx := cx camera + (x p2 - x p1);
     cy := cy camera + (y p2 - y p1);
     cz := zoom |}.

(** The initial state of the component, [{ ...ORIGIN, z: 1 }]. *)
Definition initialCamera : Camera :=
  {| cx := x ORIGIN; cy := y ORIGIN; cz := lit 1 |}.

(** The fields of a wheel event the handler reads. *)
Record WheelEvent : Type := mkWheel {
  clientX : number;
  clientY : number;
  deltaX : number;
  deltaY : number;
  ctrlKey : bool
}.

Definition handleWheel (e : WheelEvent) (camera : Camera) : Camera :=
  if ctrlKey e then
    zoomCamera camera {| x := clientX e; y := clientY e |}
      (deltaY e / TOUCHPAD_ZOOM_SENS)
  else
    panCamera camera (deltaX e * TOUCHPAD_PAN_SENS)
      (deltaY e * TOUCHPAD_PAN_SENS).

End CameraCanvas.

(** ** The program on binary64

    The helpers of the camera-based component once more, on the doubles the
    program computes with; [/], [*], [+] and [-] are the correctly rounded
    IEEE 754 operations. *)

Module Double.
Import PrimFloat.
Local Open Scope float_scope.

Record Point : Type := mkPoint { x : float; y : float }.

Record Camera : Type := mkCamera { cx : float; cy : float; cz : float }.

Definition screenToCanvas (point : Point) (camera : Camera) : Point :=
  {| x := x point / cz camera - cx camera;
     y := y point / cz camera - cy camera |}.

Definition panCamera (camera : Camera) (dx dy : float) : Camera :=
  {| cx := cx camera - dx / cz camera;
     cy := cy camera - dy / cz camera;
     cz := cz camera |}.

Definition zoomCamera (camera : Camera) (point : Point) (dz : float)
  : Camera :=
  let zoom := cz camera - dz * cz camera in
  let p1 := screenToCanvas point camera in
  let p2 := screenToCanvas point
              {| cx := cx camera; cy := cy camera; cz := zoom |} in
  {| cx := cx camera + (x p2 - x p1);
     cy := cy camera + (y p2 - y p1);
     cz := zoom |}.

(** The part of the incremental component that decides the transform, on
    doubles at a device pixel ratio of 1: the matrix of the 2D context with
    [scale] and [translate], the hand-tracked state, the wheel handler, the
    handlers of a drag and the layout effect that applies it.  The context
    is stored throughout, and the redraw, which restores the transform it
    finds, is left out. *)

Record Matrix : Type := mkMatrix {
  ma : float; mb : float; mc : float; md : float; me : float; mf : float
}.

Definition identityMatrix : Matrix :=
  {| ma := 1; mb := 0; mc := 0; md := 1; me := 0; mf := 0 |}.

Definition ctx_scale (m : Matrix) (sx sy : float) : Matrix :=
  if is_finite sx && is_finite sy then
    {| ma := ma m * sx; mb := mb m * sx;
       mc := mc m * sy; md := md m * sy;
       me := me m; mf := mf m |}
  else m.

Definition ctx_translate (m : Matrix) (tx ty : float) : Matrix :=
  if is_finite tx && is_finite ty then
    {| ma := ma m; mb := mb m; mc := mc m; md := md m;
       me := ma m * tx + mc m * ty + me m;
       mf := mb m * tx + md m * ty + mf m |}
  else m.

Record View : Type := mkView {
  transform : Matrix;
  scale : float;
  offset : Point;
  lastOffsetRef : Point;
  viewportTopLeft : Point;
  mousePos : Point;
  lastMousePosRef : Point
}.

Definition diffPoints (a b : Point) : Point :=
  {| x := x a - x b; y := y a - y b |}.

Definition addPoints (a b : Point) : Point :=
  {| x := x a + x b; y := y a + y b |}.

Definition scalePoint (a : Point) (scalar : float) : Point :=
  {| x := x a / scalar; y := y a / scalar |}.

(** The state after mounting with a device pixel ratio of 1. *)
Definition mounted : View :=
  {| transform := identityMatrix;
     scale := 1;
     offset := {| x := 0; y := 0 |};
     lastOffsetRef := {| x := 0; y := 0 |};
     viewportTopLeft := {| x := 0; y := 0 |};
     mousePos := {| x := 0; y := 0 |};
     lastMousePosRef := {| x := 0; y := 0 |} |}.

Definition handleUpdateMouse (client topLeftCanvasPos : Point) (s : View)
  : View :=
  {| transform := transform s;
     scale := scale s;
     offset := offset s;
     lastOffsetRef := lastOffsetRef s;
     viewportTopLeft := viewportTopLeft s;
     mousePos := diffPoints client topLeftCanvasPos;
     lastMousePosRef := lastMousePosRef s |}.

Definition handleWheel (deltaY : float) (s : View) : View :=
  let zoom := 1 - deltaY / 500 in
  let viewportTopLeftDelta :=
    {| x := (x (mousePos s) / scale s) * (1 - 1 / zoom);
       y := (y (mousePos s) / scale s) * (1 - 1 / zoom) |} in
  let newViewportTopLeft :=
    addPoints (viewportTopLeft s) viewportTopLeftDelta in
  let c1 := ctx_translate (transform s)
              (x (viewportTopLeft s)) (y (viewportTopLeft s)) in
  let c2 := ctx_scale c1 zoom zoom in
  let c3 := ctx_translate c2
              (- x newViewportTopLeft) (- y newViewportTopLeft) in
  {| transform := c3;
     scale := scale s * zoom;
     offset := offset s;
     lastOffsetRef := lastOffsetRef s;
     viewportTopLeft := newViewportTopLeft;
     mousePos := mousePos s;
     lastMousePosRef := lastMousePosRef s |}.

Definition startPan (page : Point) (s : View) : View :=
  {| transform := transform s;
     scale := scale s;
     offset := offset s;
     lastOffsetRef := lastOffsetRef s;
     viewportTopLeft := viewportTopLeft s;
     mousePos := mousePos s;
     lastMousePosRef := page |}.

Definition mouseMove (page : Point) (s : View) : View :=
  let mouseDiff := diffPoints page (lastMousePosRef s) in
  {| transform := transform s;
     scale := scale s;
     offset := addPoints (offset s) mouseDiff;
     lastOffsetRef := lastOffsetRef s;
     viewportTopLeft := viewportTopLeft s;
     mousePos := mousePos s;
     lastMousePosRef := page |}.

(** The layout effect that applies a changed [offset], followed by the
    passive effect that stores it in [lastOffsetRef]. *)
Definition offsetEffect (s : View) : View :=
  let offsetDiff :=
    scalePoint (diffPoints (offset s) (lastOffsetRef s)) (scale s) in
  {| transform := ctx_translate (transform s) (x offsetDiff) (y offsetDiff);
     scale := scale s;
     offset := offset s;
     lastOffsetRef := offset s;
     viewportTopLeft := diffPoints (viewportTopLeft s) offsetDiff;
     mousePos := mousePos s;
     lastMousePosRef := lastMousePosRef s |}.

(** The transform a redraw from scratch installs for the tracked camera:
    [resetTransform(); scale(z, z); translate(x, y)] with
    [x = -viewportTopLeft.x], [y = -viewportTopLeft.y], [z = scale]. *)
Definition fromScratch (s : View) : Matrix :=
  ctx_translate (ctx_scale identityMatrix (scale s) (scale s))
    (- x (viewportTopLeft s)) (- y (viewportTopLeft s)).

(** A wheel tick of 30 with the pointer at (100, 100), then a drag from
    (10, 10) to (30, 25). *)
Definition zoomThenDrag : View :=
  offsetEffect
    (mouseMove {| x := 30; y := 25 |}
       (startPan {| x := 10; y := 10 |}
          (handleWheel 30
             (handleUpdateMouse {| x := 100; y := 100 |}
                {| x := 0; y := 0 |} mounted)))).

End Double.

(** ** The 2D rendering context of the host

    Only the part of the canvas API the components call.  The current
    transform is the matrix [[a c e; b d f]]; [scale] and [translate] multiply
    it on the right, and return without effect when an argument is not finite.
    Assigning the width or the height of the canvas resets the context to its
    default state, whose transform is the identity. *)

Record Matrix : Type := mkMatrix {
  ma : number; mb : number; mc : number; md : number; me : number; mf : number
}.

Record Context2D : Type := mkContext {
  width : number;
  height : number;
  transform : Matrix
}.

Definition identityMatrix : Matrix :=
  {| ma := lit 1; mb := lit 0; mc := lit 0; md := lit 1;
     me := lit 0; mf := lit 0 |}.

Definition Matrix_eqb (m n : Matrix) : bool :=
  number_eqb (ma m) (ma n) && number_eqb (mb m) (mb n)
  && number_eqb (mc m) (mc n) && number_eqb (md m) (md n)
  && number_eqb (me m) (me n) && number_eqb (mf m) (mf n).

Definition finiteMatrix (m : Matrix) : bool :=
  isFinite (ma m) && isFinite (mb m) && isFinite (mc m)
  && isFinite (md m) && isFinite (me m) && isFinite (mf m).

Definition ctx_scale (c : Context2D) (sx sy : number) : Context2D :=
  if isFinite sx && isFinite sy then
    let m := transform c in
    {| width := width c; height := height c;
       transform := {| ma := ma m * sx; mb := mb m * sx;
                       mc := mc m * sy; md := md m * sy;
                       me := me m; mf := mf m |} |}
  else c.

Definition ctx_translate (c : Context2D) (tx ty : number) : Context2D :=
  if isFinite tx && isFinite ty then
    let m := transform c in
    {| width := width c; height := height c;
       transform := {| ma := ma m; mb := mb m; mc := mc m; md := md m;
                       me := ma m * tx + mc m * ty + me m;
                       mf := mb m * tx + md m * ty + mf m |} |}
  else c.

Definition resetTransform (c : Context2D) : Context2D :=
  {| width := width c; height := height c; transform := identityMatrix |}.

Definition getTransform (c : Context2D) : Matrix := transform c.

Definition setTransform (c : Context2D) (m : Matrix) : Context2D :=
  if finiteMatrix m then
    {| width := width c; height := height c; transform := m |}
  else c.

Definition set_width (c : Context2D) (w : number) : Context2D :=
  {| width := w; height := height c; transform := identityMatrix |}.

Definition set_height (c : Context2D) (h : number) : Context2D :=
  {| width := width c; height := h; transform := identityMatrix |}.

(** The transform the draw effect of the camera-based component installs:
    [resetTransform(); scale(camera.z, camera.z);
     translate(camera.x, camera.y)]. *)
Definition drawTransform (c : Context2D) (camera : Camera) : Context2D :=
  ctx_translate (ctx_scale (resetTransform c) (cz camera) (cz camera))
    (cx camera) (cy camera).

(** ** The incremental component, [src/Canvas.tsx] *)

Module Canvas.

Definition diffPoints (a b : Point) : Point :=
  {| x := x a - x b; y := y a - y b |}.

Definition addPoints (a b : Point) : Point :=
  {| x := x a + x b; y := y a + y b |}.

Definition scalePoint (a : Point) (scalar : number) : Point :=
  {| x := x a / scalar; y := y a / scalar |}.

Definition ZOOM_SENSITIVITY : number := lit 500.

(** State of a mounted component: the hook state, the refs, the 2D context of
    the canvas element, and whether [mouseMove]/[mouseUp] are currently
    registered on the document.  [offsetIsORIGIN] records that the [offset]
    state is the frozen [ORIGIN] object itself, which is what decides whether
    [setOffset(ORIGIN)] changes a dependency of the layout effect. *)
Record State : Type := mkState {
  ctx : Context2D;
  context : bool;
  isResetRef : bool;
  scale : number;
  offset : Point;
  offsetIsORIGIN : bool;
  lastOffsetRef : Point;
  viewportTopLeft : Point;
  mousePos : Point;
  lastMousePosRef : Point;
  listening : bool
}.

(** Events the host delivers, with the fields the handlers read.  The host
    reports real coordinates and deltas. *)
Inductive Event : Type :=
| MouseDown (pageX pageY : Qc)
| MouseMove (pageX pageY : Qc)
| MouseUp
| CanvasMouseMove (clientX clientY : Qc)
| Wheel (clientX clientY deltaY : Qc)
| ResetClick.

Section Component.

(** [window.devicePixelRatio], the props, and the position of the canvas
    element in the page. *)
Variable devicePixelRatio : Qc.
Variables canvasWidth canvasHeight : Qc.
Variables offsetLeft offsetTop : Qc.

Definition ratio : number := Fin devicePixelRatio.

(** The state the first render starts from. *)
Definition initialState : State :=
  {| ctx := {| width := Fin canvasWidth * ratio;
               height := Fin canvasHeight * ratio;
               transform := identityMatrix |};
     context := false;
     isResetRef := false;
     scale := lit 1;
     offset := ORIGIN;
     offsetIsORIGIN := true;
     lastOffsetRef := ORIGIN;
     viewportTopLeft := ORIGIN;
     mousePos := ORIGIN;
     lastMousePosRef := ORIGIN;
     listening := false |}.

Definition reset (s : State) : State :=
  if negb (isResetRef s) then
    {| ctx := ctx_scale
                (set_height (set_width (ctx s) (Fin canvasWidth * ratio))
                   (Fin canvasHeight * ratio))
                ratio ratio;
       context := true;
       isResetRef := true;
       scale := lit 1;
       offset := ORIGIN;
       offsetIsORIGIN := true;
       lastOffsetRef := ORIGIN;
       viewportTopLeft := ORIGIN;
       mousePos := ORIGIN;
       lastMousePosRef := ORIGIN;
       listening := listening s |}
  else s.

(** Layout effect that redraws: it saves the transform, clears the canvas by
    re-assigning its width, and restores the transform. *)
Definition drawEffect (s : State) : State :=
  if context s then
    let storedTransform := getTransform (ctx s) in
    {| ctx := setTransform (set_width (ctx s) (width (ctx s))) storedTransform;
       context := context s;
       isResetRef := isResetRef s;
       scale := scale s;
       offset := offset s;
       offsetIsORIGIN := offsetIsORIGIN s;
       lastOffsetRef := lastOffsetRef s;
       viewportTopLeft := viewportTopLeft s;
       mousePos := mousePos s;
       lastMousePosRef := lastMousePosRef s;
       listening := listening s |}
  else s.

(** Layout effect with dependencies [context, offset, scale]. *)
Definition offsetEffect (s : State) : State :=
  if context s then
    let offsetDiff :=
      scalePoint (diffPoints (offset s) (lastOffsetRef s)) (scale s) in
    {| ctx := ctx_translate (ctx s) (x offsetDiff) (y offsetDiff);
       context := context s;
       isResetRef := false;
       scale := scale s;
       offset := offset s;
       offsetIsORIGIN := offsetIsORIGIN s;
       lastOffsetRef := lastOffsetRef s;
       viewportTopLeft := diffPoints (viewportTopLeft s) offsetDiff;
       mousePos := mousePos s;
       lastMousePosRef := lastMousePosRef s;
       listening := listening s |}
  else s.

(** Passive effect with dependency [offset]. *)
Definition syncLastOffset (s : State) : State :=
  {| ctx := ctx s;
     context := context s;
     isResetRef := isResetRef s;
     scale := scale s;
     offset := offset s;
     offsetIsORIGIN := offsetIsORIGIN s;
     lastOffsetRef := offset s;
     viewportTopLeft := viewportTopLeft s;
     mousePos := mousePos s;
     lastMousePosRef := lastMousePosRef s;
     listening := listening s |}.

Definition mouseMove (page : Point) (s : State) : State :=
  if context s then
    let lastMousePos := lastMousePosRef s in
    let currentMousePos := page in
    let mouseDiff := diffPoints currentMousePos lastMousePos in
    {| ctx := ctx s;
       context := context s;
       isResetRef := isResetRef s;
       scale := scale s;
       offset := addPoints (offset s) mouseDiff;
       offsetIsORIGIN := false;
       lastOffsetRef := lastOffsetRef s;
       viewportTopLeft := viewportTopLeft s;
       mousePos := mousePos s;
       lastMousePosRef := currentMousePos;
       listening := listening s |}
  else s.

Definition mouseUp (s : State) : State :=
  {| ctx := ctx s;
     context := context s;
     isResetRef := isResetRef s;
     scale := scale s;
     offset := offset s;
     offsetIsORIGIN := offsetIsORIGIN s;
     lastOffsetRef := lastOffsetRef s;
     viewportTopLeft := viewportTopLeft s;
     mousePos := mousePos s;
     lastMousePosRef := lastMousePosRef s;
     listening := false |}.

Definition startPan (page : Point) (s : State) : State :=
  {| ctx := ctx s;
     context := context s;
     isResetRef := isResetRef s;
     scale := scale s;
     offset := offset s;
     offsetIsORIGIN := offsetIsORIGIN s;
     lastOffsetRef := lastOffsetRef s;
     viewportTopLeft := viewportTopLeft s;
     mousePos := mousePos s;
     lastMousePosRef := page;
     listening := true |}.

Definition handleUpdateMouse (clientX clientY : number) (s : State)
  : State :=
  let viewportMousePos := {| x := clientX; y := clientY |} in
  let topLeftCanvasPos := {| x := Fin offsetLeft; y := Fin offsetTop |} in
  {| ctx := ctx s;
     context := context s;
     isResetRef := isResetRef s;
     scale := scale s;
     offset := offset s;
     offsetIsORIGIN := offsetIsORIGIN s;
     lastOffsetRef := lastOffsetRef s;
     viewportTopLeft := viewportTopLeft s;
     mousePos := diffPoints viewportMousePos topLeftCanvasPos;
     lastMousePosRef := lastMousePosRef s;
     listening := listening s |}.

Definition handleWheel (deltaY : number) (s : State) : State :=
  if context s then
    let zoom := lit 1 - deltaY / ZOOM_SENSITIVITY in
    let viewportTopLeftDelta :=
      {| x := (x (mousePos s) / scale s) * (lit 1 - lit 1 / zoom);
         y := (y (mousePos s) / scale s) * (lit 1 - lit 1 / zoom) |} in
    let newViewportTopLeft :=
      addPoints (viewportTopLeft s) viewportTopLeftDelta in
    let c1 := ctx_translate (ctx s)
                (x (viewportTopLeft s)) (y (viewportTopLeft s)) in
    let c2 := ctx_scale c1 zoom zoom in
    let c3 := ctx_translate c2
                (- x newViewportTopLeft) (- y newViewportTopLeft) in
    {| ctx := c3;
       context := context s;
       isResetRef := false;
       scale := scale s * zoom;
       offset := offset s;
       offsetIsORIGIN := offsetIsORIGIN s;
       lastOffsetRef := lastOffsetRef s;
       viewportTopLeft := newViewportTopLeft;
       mousePos := mousePos s;
       lastMousePosRef := lastMousePosRef s;
       listening := listening s |}
  else s.

(** The renders that follow a handler.  [step] lets all of them finish
    before the next event is delivered; see [WheelListener] for a wheel
    event that arrives earlier.  The layout effects run in source order: the redraw,
    then [offsetEffect] when one of [context], [offset], [scale] changed;
    then the passive effect when [offset] changed.  The state update made by
    [offsetEffect] causes one more render, which only redraws.  The redraw is
    run in every commit, also when none of its dependencies changed: it
    restores the transform it finds and so leaves the state as it is. *)
Definition commit (depsChanged offsetChanged : bool) (s : State) : State :=
  let s1 := drawEffect s in
  let s2 := if depsChanged then offsetEffect s1 else s1 in
  let s3 := if offsetChanged then syncLastOffset s2 else s2 in
  drawEffect s3.

(** Mounting: the first render runs every effect once.  The layout effect
    that calls [reset] stores the context; the other two layout effects still
    see [context === null].  The second render then has a changed
    [context]. *)
Definition mount : State :=
  let s1 := reset initialState in
  let s2 := syncLastOffset s1 in
  commit true false s2.

(** An event delivered to a mounted component, followed by the renders it
    causes.  The document listeners only exist during a drag.  A wheel event
    reaches both [handleWheel], which reads the [mousePos] of the last
    render, and [handleUpdateMouse].  [mouseMove] always stores a fresh
    [offset] object; [reset] changes [offset] unless it already is
    [ORIGIN]. *)
Definition step (s : State) (e : Event) : State :=
  match e with
  | MouseDown pageX pageY =>
      startPan {| x := Fin pageX; y := Fin pageY |} s
  | MouseMove pageX pageY =>
      if listening s && context s then
        commit true true (mouseMove {| x := Fin pageX; y := Fin pageY |} s)
      else s
  | MouseUp => if listening s then mouseUp s else s
  | CanvasMouseMove clientX clientY =>
      handleUpdateMouse (Fin clientX) (Fin clientY) s
  | Wheel clientX clientY deltaY =>
      let s1 := handleUpdateMouse (Fin clientX) (Fin clientY)
                  (handleWheel (Fin deltaY) s) in
      commit (negb (number_eqb (scale s1) (scale s))) false s1
  | ResetClick =>
      if context s then
        if isResetRef s then reset s
        else
          let s1 := reset s in
          commit (negb (number_eqb (scale s1) (scale s))
                  || negb (offsetIsORIGIN s))
                 (negb (offsetIsORIGIN s)) s1
      else s
  end.

Definition run (events : list Event) : State := fold_left step events mount.

(** The camera the hand-tracked state stands for: the canvas point at the
    top-left corner of the screen is [viewportTopLeft], and the scale factor
    is [scale]. *)
Definition cameraOf (s : State) : Camera :=
  {| cx := - x (viewportTopLeft s);
     cy := - y (viewportTopLeft s);
     cz := scale s |}.

End Component.

End Canvas.

(** The from-scratch transform of [drawTransform] on a surface whose
    backing store is scaled by the device pixel ratio, as [reset] sets it up:
    [resetTransform(); scale(ratio, ratio); scale(z, z); translate(x, y)]. *)
Definition drawTransformScaled (ratio : number) (c : Context2D)
  (camera : Camera) : Context2D :=
  ctx_translate
    (ctx_scale (ctx_scale (resetTransform c) ratio ratio)
       (cz camera) (cz camera))
    (cx camera) (cy camera).

(** ** The wheel listener between renders

    [Canvas.step] lets every render and effect finish before the next
    event.  The wheel listener is registered by a passive effect and closes
    over the [context], [mousePos], [viewportTopLeft] and [scale] of the
    render that registered it; a wheel event that arrives before the next
    registration is handled with those values, on the live 2D context. *)

Module WheelListener.
Import Canvas.

Definition handleWheelFrom (rendered : State) (deltaY : number) (s : State)
  : State :=
  if context rendered then
    let zoom := lit 1 - deltaY / ZOOM_SENSITIVITY in
    let viewportTopLeftDelta :=
      {| x := (x (mousePos rendered) / scale rendered)
              * (lit 1 - lit 1 / zoom);
         y := (y (mousePos rendered) / scale rendered)
              * (lit 1 - lit 1 / zoom) |} in
    let newViewportTopLeft :=
      addPoints (viewportTopLeft rendered) viewportTopLeftDelta in
    let c1 := ctx_translate (ctx s)
                (x (viewportTopLeft rendered))
                (y (viewportTopLeft rendered)) in
    let c2 := ctx_scale c1 zoom zoom in
    let c3 := ctx_translate c2
                (- x newViewportTopLeft) (- y newViewportTopLeft) in
    {| ctx := c3;
       context := context s;
       isResetRef := false;
       scale := scale rendered * zoom;
       offset := offset s;
       offsetIsORIGIN := offsetIsORIGIN s;
       lastOffsetRef := lastOffsetRef s;
       viewportTopLeft := newViewportTopLeft;
       mousePos := mousePos s;
       lastMousePosRef := lastMousePosRef s;
       listening := listening s |}
  else s.

End WheelListener.

(** ** The incremental component with touch and pinch support

    The later version of the incremental component.  It keeps the code of
    [src/Canvas.tsx] and adds [averagePoints], a second wheel sensitivity
    for events with the control key, and touch handlers that drive the same
    [offset] state as the mouse handlers.  [distanceBetweenPoints] takes a
    square root and is left out. *)

Module PinchCanvas.
Import Canvas.

Definition averagePoints (points : list Point) : Point :=
  {| x := fold_left (fun acc v => acc + x v) points (lit 0)
          / lit (Z.of_nat (length points));
     y := fold_left (fun acc v => acc + y v) points (lit 0)
          / lit (Z.of_nat (length points)) |}.

Definition PINCH_SENSITIVITY : number := lit 200.

(** The hook state and refs of [src/Canvas.tsx], and whether [touchMove] and
    [touchEnd] are registered on the document. *)
Record State : Type := mkState {
  base : Canvas.State;
  touching : bool
}.

Inductive Event : Type :=
| MouseDown (pageX pageY : Qc)
| MouseMove (pageX pageY : Qc)
| MouseUp
| CanvasMouseMove (clientX clientY : Qc)
| Wheel (clientX clientY deltaY : Qc) (ctrlKey : bool)
| ResetClick
| TouchStart (touches : list (Qc * Qc))
| TouchMove (touches : list (Qc * Qc))
| TouchEnd.

(** The [pageX], [pageY] of the entries of [e.touches]. *)
Definition touchPoints (touches : list (Qc * Qc)) : list Point :=
  map (fun t => {| x := Fin (fst t); y := Fin (snd t) |}) touches.

Section Component.

Variable devicePixelRatio : Qc.
Variables canvasWidth canvasHeight : Qc.
Variables offsetLeft offsetTop : Qc.

(** [touchMove] reads [e.touches[0]]; on an empty list that access throws,
    before anything is written. *)
Definition touchMove (touches : list Point) (s : Canvas.State)
  : option Canvas.State :=
  if context s then
    match touches with
    | [] => None
    | touch0 :: _ =>
        let lastMousePos := lastMousePosRef s in
        let currentMousePos := {| x := x touch0; y := y touch0 |} in
        let touchDiff := diffPoints currentMousePos lastMousePos in
        Some
          {| ctx := ctx s;
             context := context s;
             isResetRef := isResetRef s;
             scale := scale s;
             offset := addPoints (offset s) touchDiff;
             offsetIsORIGIN := false;
             lastOffsetRef := lastOffsetRef s;
             viewportTopLeft := viewportTopLeft s;
             mousePos := mousePos s;
             lastMousePosRef := currentMousePos;
             listening := listening s |}
    end
  else Some s.

Definition touchEnd (s : State) : State :=
  {| base := base s; touching := false |}.

Definition handleTouch (touches : list Point) (s : State) : State :=
  {| base :=
       match touches with
       | [touch0] =>
           {| ctx := ctx (base s);
              context := context (base s);
              isResetRef := isResetRef (base s);
              scale := scale (base s);
              offset := offset (base s);
              offsetIsORIGIN := offsetIsORIGIN (base s);
              lastOffsetRef := lastOffsetRef (base s);
              viewportTopLeft := viewportTopLeft (base s);
              mousePos := mousePos (base s);
              lastMousePosRef := {| x := x touch0; y := y touch0 |};
              listening := listening (base s) |}
       | _ => base s
       end;
     touching := true |}.

Definition handleWheel (ctrlKey : bool) (deltaY : number)
  (s : Canvas.State) : Canvas.State :=
  if context s then
    let zoom :=
      if ctrlKey then lit 1 - deltaY / PINCH_SENSITIVITY
      else lit 1 - deltaY / ZOOM_SENSITIVITY in
    let viewportTopLeftDelta :=
      {| x := (x (mousePos s) / scale s) * (lit 1 - lit 1 / zoom);
         y := (y (mousePos s) / scale s) * (lit 1 - lit 1 / zoom) |} in
    let newViewportTopLeft :=
      addPoints (viewportTopLeft s) viewportTopLeftDelta in
    let c1 := ctx_translate (ctx s)
                (x (viewportTopLeft s)) (y (viewportTopLeft s)) in
    let c2 := ctx_scale c1 zoom zoom in
    let c3 := ctx_translate c2
                (- x newViewportTopLeft) (- y newViewportTopLeft) in
    {| ctx := c3;
       context := context s;
       isResetRef := false;
       scale := scale s * zoom;
       offset := offset s;
       offsetIsORIGIN := offsetIsORIGIN s;
       lastOffsetRef := lastOffsetRef s;
       viewportTopLeft := newViewportTopLeft;
       mousePos := mousePos s;
       lastMousePosRef := lastMousePosRef s;
       listening := listening s |}
  else s.

(** The handlers and effects shared with [src/Canvas.tsx] act on [base]. *)
Definition onBase (f : Canvas.State -> Canvas.State) (s : State) : State :=
  {| base := f (base s); touching := touching s |}.

Definition mount : State :=
  {| base := Canvas.mount devicePixelRatio canvasWidth canvasHeight;
     touching := false |}.

(** An event followed by the renders it causes.  The mouse, wheel and
    reset cases are those of [Canvas.step], with the wheel handler of this
    version; a touch move that throws leaves the state as it was. *)
Definition step (s : State) (e : Event) : State :=
  match e with
  | MouseDown pageX pageY =>
      onBase (startPan {| x := Fin pageX; y := Fin pageY |}) s
  | MouseMove pageX pageY =>
      if listening (base s) && context (base s) then
        onBase
          (fun b =>
             commit true true
               (mouseMove {| x := Fin pageX; y := Fin pageY |} b)) s
      else s
  | MouseUp => if listening (base s) then onBase mouseUp s else s
  | CanvasMouseMove clientX clientY =>
      onBase
        (handleUpdateMouse offsetLeft offsetTop (Fin clientX) (Fin clientY))
        s
  | Wheel clientX clientY deltaY ctrlKey =>
      let s1 := handleUpdateMouse offsetLeft offsetTop
                  (Fin clientX) (Fin clientY)
                  (handleWheel ctrlKey (Fin deltaY) (base s)) in
      {| base := commit (negb (number_eqb (scale s1) (scale (base s))))
                   false s1;
         touching := touching s |}
  | ResetClick =>
      onBase
        (fun b =>
           Canvas.step devicePixelRatio canvasWidth canvasHeight
             offsetLeft offsetTop b Canvas.ResetClick) s
  | TouchStart touches => handleTouch (touchPoints touches) s
  | TouchMove touches =>
      if touching s && context (base s) then
        match touchMove (touchPoints touches) (base s) with
        | Some b => {| base := commit true true b; touching := touching s |}
        | None => s
        end
      else s
  | TouchEnd => if touching s then touchEnd s else s
  end.

Definition run (events : list Event) : State := fold_left step events mount.

End Component.

(** A drag with one finger, and the same drag with the mouse. *)
Definition touchDrag (start : Qc * Qc) (moves : list (Qc * Qc))
  : list Event :=
  TouchStart [start] :: map (fun p => TouchMove [p]) moves ++ [TouchEnd].

Definition mouseDrag (start : Qc * Qc) (moves : list (Qc * Qc))
  : list Event :=
  MouseDown (fst start) (snd start)
  :: map (fun p => MouseMove (fst p) (snd p)) moves ++ [MouseUp].

End PinchCanvas.

(** The state [s] with its mouse-listener registration replaced. *)
Definition setListening (l : bool) (s : Canvas.State) : Canvas.State :=
  {| Canvas.ctx := Canvas.ctx s;
     Canvas.context := Canvas.context s;
     Canvas.isResetRef := Canvas.isResetRef s;
     Canvas.scale := Canvas.scale s;
     Canvas.offset := Canvas.offset s;
     Canvas.offsetIsORIGIN := Canvas.offsetIsORIGIN s;
     Canvas.lastOffsetRef := Canvas.lastOffsetRef s;
     Canvas.viewportTopLeft := Canvas.viewportTopLeft s;
     Canvas.mousePos := Canvas.mousePos s;
     Canvas.lastMousePosRef := Canvas.lastMousePosRef s;
     Canvas.listening := l |}.

(** ** The camera-based component: viewport, event loop and drawing *)

Module CameraComponent.
Import CameraCanvas.

Record Box : Type := mkBox {
  topLeft : Point;
  bottomRight : Point;
  width : number;
  height : number
}.

Definition getViewport (camera : Camera) (box : Box) : Box :=
  let topLeftCanvas := screenToCanvas (topLeft box) camera in
  let bottomRightCanvas := screenToCanvas (bottomRight box) camera in
  {| topLeft := topLeftCanvas;
     bottomRight := bottomRightCanvas;
     width := x bottomRightCanvas - x topLeftCanvas;
     height := y bottomRightCanvas - y topLeftCanvas |}.

(** The [viewport] the component computes on every render, for a window of
    the given inner size. *)
Definition viewport (camera : Camera) (innerWidth innerHeight : number)
  : Box :=
  getViewport camera
    {| topLeft := ORIGIN;
       bottomRight := {| x := innerWidth; y := innerHeight |};
       width := innerWidth;
       height := innerHeight |}.

(** The [camera] state after a sequence of wheel events: every handler call
    queues a functional update of the state. *)
Definition runWheel (events : list WheelEvent) (camera : Camera) : Camera :=
  fold_left (fun c e => handleWheel e c) events camera.

End CameraComponent.

(** ** Well-formed data

    Points and cameras of the data model are real-valued; a camera is valid
    when in addition its scale is positive. *)

Definition realPoint (p : Point) : Prop :=
  isFinite (x p) = true /\ isFinite (y p) = true.

Definition realCamera (c : Camera) : Prop :=
  isFinite (cx c) = true /\ isFinite (cy c) = true /\ isFinite (cz c) = true.

Definition validCamera (c : Camera) : Prop :=
  realCamera c /\ lit 0 < cz c.

(** ** Reachable states of the incremental component

    Over exact arithmetic, every state the component reaches along
    [Canvas.run] has one of two shapes.  While no zoom factor has been
    zero, the scale [sc] is a non-zero real, the viewport corner [(vx, vy)]
    is real, and the context transform is the one these two and the device
    pixel ratio determine.  After a zoom factor of zero the scale is zero,
    the corner is not a number, and the translation entries of the
    transform cancel exactly, which leaves the zero matrix; on doubles they
    keep a rounding residue. *)

Definition pt (a b : Qc) : Point := {| x := Fin a; y := Fin b |}.

Definition matrixOf (a vx vy : Qc) : Matrix :=
  mkMatrix (Fin a) (Fin 0) (Fin 0) (Fin a)
    (Fin (- (a * vx))) (Fin (- (a * vy))).

Definition zeroMatrix : Matrix :=
  mkMatrix (Fin 0) (Fin 0) (Fin 0) (Fin 0) (Fin 0) (Fin 0).

Definition finS (r : Qc) (W H : number) (flag offIsO l : bool)
  (sc vx vy ox oy lox loy mx my lx ly : Qc) : Canvas.State :=
  Canvas.mkState (mkContext W H (matrixOf (r * sc) vx vy)) true flag (Fin sc)
    (pt ox oy) offIsO (pt lox loy) (pt vx vy) (pt mx my) (pt lx ly) l.

Definition colS (W H : number) (flag offIsO l : bool)
  (ox oy lox loy mx my lx ly : Qc) : Canvas.State :=
  Canvas.mkState (mkContext W H zeroMatrix) true flag (Fin 0)
    (pt ox oy) offIsO (pt lox loy) (mkPoint NaN NaN) (pt mx my) (pt lx ly) l.

(** Between events [lastOffsetRef] equals [offset], and the reset flag is
    only set while the camera is the identity. *)
Inductive Tracked (r : Qc) : Canvas.State -> Prop :=
| Tracked_finite (W H : number) (flag offIsO l : bool)
    (sc vx vy ox oy mx my lx ly : Qc) :
    sc <> 0%Qc ->
    (flag = true ->
     sc = 1%Qc /\ vx = 0%Qc /\ vy = 0%Qc /\ ox = 0%Qc /\ oy = 0%Qc
     /\ offIsO = true) ->
    Tracked r (finS r W H flag offIsO l sc vx vy ox oy ox oy mx my lx ly)
| Tracked_collapsed (W H : number) (offIsO l : bool)
    (ox oy mx my lx ly : Qc) :
    Tracked r (colS W H false offIsO l ox oy ox oy mx my lx ly).

(** ** Sample event sequences *)

(** A drag from (10, 10) to (30, 25) that is still in progress. *)
Definition dragEvents : list Canvas.Event :=
  [Canvas.MouseDown (qz 10) (qz 10); Canvas.MouseMove (qz 30) (qz 25)].

(** The same drag, released, followed by a wheel tick of 250 with the
    pointer at (100, 100). *)
Definition dragThenZoomEvents : list Canvas.Event :=
  [Canvas.MouseDown (qz 10) (qz 10); Canvas.MouseMove (qz 30) (qz 25);
   Canvas.MouseUp; Canvas.CanvasMouseMove (qz 100) (qz 100);
   Canvas.Wheel (qz 100) (qz 100) (qz 250)].

(** ** Basic facts about numbers *)

Lemma number_eqb_eq (a b : number) : number_eqb a b = true <-> a = b.
Proof.
  destruct a as [p|], b as [q|]; simpl; split; intros H;
    try discriminate; try reflexivity.
  - f_equal. now apply Qc_eq_bool_correct.
  - injection H as ->. unfold Qc_eq_bool.
    destruct (Qc_eq_dec q q); congruence.
Qed.

Lemma Point_eqb_eq (p q : Point) : Point_eqb p q = true <-> p = q.
Proof.
  destruct p, q; unfold Point_eqb; simpl.
  rewrite andb_true_iff, !number_eqb_eq.
  split; [intros [-> ->]; reflexivity | intros [= -> ->]; auto].
Qed.

Lemma Camera_eqb_eq (c d : Camera) : Camera_eqb c d = true <-> c = d.
Proof.
  destruct c, d; unfold Camera_eqb; simpl.
  rewrite !andb_true_iff, !number_eqb_eq.
  split; [intros [[-> ->] ->]; reflexivity | intros [= -> -> ->]; auto].
Qed.

Lemma Matrix_eqb_eq (m n : Matrix) : Matrix_eqb m n = true <-> m = n.
Proof.
  destruct m, n; unfold Matrix_eqb; simpl.
  rewrite !andb_true_iff, !number_eqb_eq.
  split; [intros [[[[[-> ->] ->] ->] ->] ->]; reflexivity
         | intros [= -> -> -> -> -> ->]; auto 10].
Qed.

Lemma Qclt_neq0 (q : Qc) : (0 < q)%Qc -> q <> 0%Qc.
Proof. intros H ->. now apply (Qclt_not_eq _ _ H). Qed.

Lemma Qcinv_pos (k : Qc) : (0 < k)%Qc -> (0 < / k)%Qc.
Proof.
  intros Hk. destruct (Qclt_le_dec 0 (/ k)) as [H|H]; auto.
  exfalso.
  apply (Qcmult_le_compat_r _ _ k) in H; [|now apply Qclt_le_weak].
  rewrite Qcmult_inv_l in H by now apply Qclt_neq0.
  rewrite Qcmult_0_l in H.
  revert H. apply Qclt_not_le. reflexivity.
Qed.

(** A scale [z - d / k * z] stays positive exactly while [d < k]. *)
Lemma Qc_zoom_pos (z d k : Qc) :
  (0 < z)%Qc -> (0 < k)%Qc -> (0 < z - d / k * z <-> d < k)%Qc.
Proof.
  intros Hz Hk.
  assert (Hk0 : k <> 0%Qc) by now apply Qclt_neq0.
  replace (z - d / k * z)%Qc with ((k - d) * (z / k))%Qc by (field; auto).
  assert (Hzk : (0 < z / k)%Qc).
  { unfold Qcdiv. replace 0%Qc with (0 * / k)%Qc by ring.
    apply Qcmult_lt_compat_r; auto using Qcinv_pos. }
  split; intros H.
  - destruct (Qclt_le_dec d k) as [H1|H1]; auto.
    exfalso.
    apply (Qcmult_le_compat_r _ _ (z / k)) in H1; [|now apply Qclt_le_weak].
    apply Qcle_minus_iff in H1.
    replace (d * (z / k) + - (k * (z / k)))%Qc
      with (- ((k - d) * (z / k)))%Qc in H1 by ring.
    apply Qcopp_le_compat in H1. rewrite Qcopp_involutive in H1.
    replace (- 0)%Qc with 0%Qc in H1 by ring.
    revert H1. now apply Qclt_not_le.
  - replace 0%Qc with (0 * (z / k))%Qc by ring.
    apply Qcmult_lt_compat_r; auto.
    apply Qclt_minus_iff in H. exact H.
Qed.

(** Case analysis on every number in sight, followed by field reasoning on
    the finite cases. *)
Ltac break_numbers :=
  repeat match goal with
         | a : number |- _ => destruct a
         end.

Ltac break_div :=
  repeat match goal with
         | |- context [Qc_eq_dec ?a ?b] => destruct (Qc_eq_dec a b)
         | H : context [Qc_eq_dec ?a ?b] |- _ => destruct (Qc_eq_dec a b)
         end.

Ltac peel :=
  repeat match goal with
         | |- Fin _ = Fin _ => apply f_equal
         | |- mkPoint _ _ = mkPoint _ _ => f_equal
         | |- mkCamera _ _ _ = mkCamera _ _ _ => f_equal
         | |- mkMatrix _ _ _ _ _ _ = mkMatrix _ _ _ _ _ _ => f_equal
         | |- mkContext _ _ _ = mkContext _ _ _ => f_equal
         | |- Canvas.mkState _ _ _ _ _ _ _ _ _ _ _
              = Canvas.mkState _ _ _ _ _ _ _ _ _ _ _ => f_equal
         end.

Ltac norm_lit :=
  unfold lit in *;
  change (Q2Qc (inject_Z 0)) with 0%Qc in *;
  change (Q2Qc (inject_Z 1)) with 1%Qc in *.

Ltac finish :=
  cbn;
  repeat (match goal with
          | |- context [Qc_eq_dec ?a ?b] =>
              destruct (Qc_eq_dec a b); try contradiction; try congruence
          end; cbn);
  peel; try reflexivity; try ring; try (field; repeat split; assumption).

Ltac solve_num :=
  simpl in *; break_div; simpl in *;
  try contradiction; try discriminate; try reflexivity;
  peel; try reflexivity; try (field; auto).

(** ** The program's arithmetic

    Where binary64 departs from the exact reading.  Each statement is
    evaluated on the doubles themselves. *)

Section OnDoubles.
Import PrimFloat.
Local Open Scope float_scope.

(** C1 fails on doubles: for the camera [{x: 5, y: 7, z: 3}], the anchor
    (10, 10) and the delta [20 / 200], both scales are positive, and the
    canvas point under the anchor has x = -1.6666666666666665 before the
    zoom and x = -1.666666666666667 after it. *)
Lemma zoom_moves_anchor_on_doubles :
  ltb 0 (Double.cz (Double.mkCamera 5 7 3)) = true
  /\ ltb 0 (Double.cz
              (Double.zoomCamera (Double.mkCamera 5 7 3)
                 (Double.mkPoint 10 10) (20 / 200))) = true
  /\ eqb (Double.x
            (Double.screenToCanvas (Double.mkPoint 10 10)
               (Double.mkCamera 5 7 3)))
         (Double.x
            (Double.screenToCanvas (Double.mkPoint 10 10)
               (Double.zoomCamera (Double.mkCamera 5 7 3)
                  (Double.mkPoint 10 10) (20 / 200)))) = false.
Proof.
  vm_compute. repeat split.
Qed.

(** C6 fails on doubles: from the camera [{x: 0, y: 0, z: 10}] a pan by
    (1, 1) followed by a pan by (2, 2) leaves x = -0.30000000000000004, one
    pan by (3, 3) leaves x = -0.3. *)
Lemma pans_do_not_add_on_doubles :
  ltb 0 (Double.cz (Double.mkCamera 0 0 10)) = true
  /\ eqb (Double.cx
            (Double.panCamera
               (Double.panCamera (Double.mkCamera 0 0 10) 1 1) 2 2))
         (Double.cx
            (Double.panCamera (Double.mkCamera 0 0 10) (1 + 2) (1 + 2)))
     = false.
Proof.
  vm_compute. repeat split.
Qed.


(** Rounding makes the incremental transform drift from the one computed
    from scratch: after a wheel tick of 30 at (100, 100) and a drag from
    (10, 10) to (30, 25) the context holds the translation (26, 21), and a
    redraw from scratch for the tracked camera installs
    (25.999999999999996, 20.999999999999996). *)
Lemma incremental_transform_drifts_on_doubles :
  eqb (Double.me (Double.transform Double.zoomThenDrag)) 26 = true
  /\ eqb (Double.mf (Double.transform Double.zoomThenDrag)) 21 = true
  /\ eqb (Double.me (Double.fromScratch Double.zoomThenDrag))
         (Double.me (Double.transform Double.zoomThenDrag)) = false
  /\ eqb (Double.mf (Double.fromScratch Double.zoomThenDrag))
         (Double.mf (Double.transform Double.zoomThenDrag)) = false
  /\ ltb (Double.me (Double.fromScratch Double.zoomThenDrag)) 26 = true
  /\ ltb (Double.mf (Double.fromScratch Double.zoomThenDrag)) 21 = true.
Proof.
  vm_compute. repeat split.
Qed.

End OnDoubles.

(** ** The coordinate mapping *)

Section CoordinateTransform.
Import CameraCanvas.

Lemma validCamera_inv (c : Camera) :
  validCamera c ->
  exists a b z : Qc, c = mkCamera (Fin a) (Fin b) (Fin z) /\ z <> 0%Qc.
Proof.
  intros [(Hx & Hy & _) Hz]. destruct c as [[a|] [b|] [z|]];
    simpl in *; try discriminate; try contradiction.
  exists a, b, z. split; [reflexivity|].
  apply Qclt_neq0. exact Hz.
Qed.

(** C2. For every valid camera (real-valued, z > 0) and every point,
    [canvasToScreen] undoes [screenToCanvas] and [screenToCanvas] undoes
    [canvasToScreen]. *)
Theorem screen_canvas_roundtrip (c : Camera) (p : Point) :
  validCamera c ->
  canvasToScreen (screenToCanvas p c) c = p
  /\ screenToCanvas (canvasToScreen p c) c = p.
Proof.
  intros Hc. destruct (validCamera_inv c Hc) as (a & b & z & -> & Hz).
  destruct p as [[u|] [v|]];
    unfold canvasToScreen, screenToCanvas; split; solve_num.
Qed.

Lemma screen_canvas_roundtrip_witness :
  validCamera (mkCamera (lit 3) (lit (-2)) (lit 2))
  /\ (canvasToScreen
        (screenToCanvas (mkPoint (lit 10) (lit 4))
           (mkCamera (lit 3) (lit (-2)) (lit 2)))
        (mkCamera (lit 3) (lit (-2)) (lit 2)) = mkPoint (lit 10) (lit 4)
      /\ screenToCanvas
           (canvasToScreen (mkPoint (lit 10) (lit 4))
              (mkCamera (lit 3) (lit (-2)) (lit 2)))
           (mkCamera (lit 3) (lit (-2)) (lit 2)) = mkPoint (lit 10) (lit 4)).
Proof.
  assert (H : validCamera (mkCamera (lit 3) (lit (-2)) (lit 2)))
    by (repeat split; reflexivity).
  split; [exact H|].
  exact (screen_canvas_roundtrip _ (mkPoint (lit 10) (lit 4)) H).
Defined.

(** C1, amended. Over exact arithmetic: for a real-valued camera and a real
    anchor, when the scale is positive before and after an anchored zoom,
    the canvas point under the anchor is the same under the old camera and
    under the zoomed camera. *)
Theorem zoom_keeps_anchor (c : Camera) (a : Point) (d : number) :
  realCamera c ->
  realPoint a ->
  lit 0 < cz c ->
  lit 0 < cz c - d * cz c ->
  screenToCanvas a c = screenToCanvas a (zoomCamera c a d).
Proof.
  intros (Hx & Hy & _) [Hax Hay] Hz Hz'.
  destruct c as [[cx0|] [cy0|] [z|]]; try discriminate; try contradiction.
  destruct a as [[u|] [v|]]; try discriminate.
  destruct d as [d|]; [|contradiction].
  simpl in Hz, Hz'.
  apply Qclt_neq0 in Hz, Hz'.
  unfold screenToCanvas, zoomCamera. solve_num.
Qed.

Lemma zoom_keeps_anchor_witness :
  realCamera (mkCamera (lit 5) (lit 7) (lit 2))
  /\ realPoint (mkPoint (lit 30) (lit 12))
  /\ lit 0 < lit 2
  /\ lit 0 < lit 2 - frac 1 4 * lit 2
  /\ screenToCanvas (mkPoint (lit 30) (lit 12))
       (mkCamera (lit 5) (lit 7) (lit 2))
     = screenToCanvas (mkPoint (lit 30) (lit 12))
         (zoomCamera (mkCamera (lit 5) (lit 7) (lit 2))
            (mkPoint (lit 30) (lit 12)) (frac 1 4)).
Proof.
  assert (Hc : realCamera (mkCamera (lit 5) (lit 7) (lit 2)))
    by (repeat split; reflexivity).
  assert (Ha : realPoint (mkPoint (lit 30) (lit 12)))
    by (split; reflexivity).
  assert (H1 : lit 0 < lit 2) by reflexivity.
  assert (H2 : lit 0 < lit 2 - frac 1 4 * lit 2) by reflexivity.
  split; [exact Hc|]. split; [exact Ha|].
  split; [exact H1|]. split; [exact H2|].
  exact (zoom_keeps_anchor (mkCamera (lit 5) (lit 7) (lit 2))
           (mkPoint (lit 30) (lit 12)) (frac 1 4) Hc Ha H1 H2).
Defined.

(** C4. [panCamera] lowers the offset by the screen delta divided by the
    scale and keeps the scale; the identity camera panned by (100, 50)
    becomes [{x: -100, y: -50, z: 1}]. *)
Theorem panCamera_spec (c : Camera) (dx dy : number) :
  cx (panCamera c dx dy) = cx c - dx / cz c
  /\ cy (panCamera c dx dy) = cy c - dy / cz c
  /\ cz (panCamera c dx dy) = cz c
  /\ panCamera initialCamera (lit 100) (lit 50)
     = mkCamera (lit (-100)) (lit (-50)) (lit 1).
Proof.
  repeat (split; [reflexivity|]).
  apply Camera_eqb_eq. vm_compute. reflexivity.
Qed.

(** C5. The scale after [zoomCamera] is [z - dz * z]; zooming the identity
    camera at the origin by [0.5] gives [{x: 0, y: 0, z: 0.5}]. *)
Theorem zoomCamera_scale (c : Camera) (a : Point) (dz : number) :
  cz (zoomCamera c a dz) = cz c - dz * cz c
  /\ zoomCamera initialCamera ORIGIN (frac 1 2)
     = mkCamera (lit 0) (lit 0) (frac 1 2).
Proof.
  split; [reflexivity|]. apply Camera_eqb_eq. vm_compute. reflexivity.
Qed.

(** C6, amended. Over exact arithmetic: on a real-valued camera with
    positive scale, two pans by real deltas in a row are one pan by the sum
    of the deltas. *)
Theorem panCamera_additive (c : Camera) (dx1 dy1 dx2 dy2 : number) :
  realCamera c ->
  isFinite dx1 = true -> isFinite dy1 = true ->
  isFinite dx2 = true -> isFinite dy2 = true ->
  lit 0 < cz c ->
  panCamera (panCamera c dx1 dy1) dx2 dy2
  = panCamera c (dx1 + dx2) (dy1 + dy2).
Proof.
  intros (Hx & Hy & _) H1 H2 H3 H4 Hz.
  destruct c as [[cx0|] [cy0|] [z|]]; try discriminate; try contradiction.
  destruct dx1, dy1, dx2, dy2; try discriminate.
  simpl in Hz. apply Qclt_neq0 in Hz.
  unfold panCamera. solve_num.
Qed.

Lemma panCamera_additive_witness :
  realCamera (mkCamera (lit 1) (lit 2) (lit 4))
  /\ isFinite (lit 8) = true /\ isFinite (lit 12) = true
  /\ isFinite (lit 20) = true /\ isFinite (lit (-4)) = true
  /\ lit 0 < lit 4
  /\ panCamera (panCamera (mkCamera (lit 1) (lit 2) (lit 4)) (lit 8) (lit 12))
       (lit 20) (lit (-4))
     = panCamera (mkCamera (lit 1) (lit 2) (lit 4))
         (lit 8 + lit 20) (lit 12 + lit (-4)).
Proof.
  assert (Hc : realCamera (mkCamera (lit 1) (lit 2) (lit 4)))
    by (repeat split; reflexivity).
  assert (H : lit 0 < lit 4) by reflexivity.
  split; [exact Hc|]. do 4 (split; [reflexivity|]).
  split; [exact H|].
  exact (panCamera_additive (mkCamera (lit 1) (lit 2) (lit 4))
           (lit 8) (lit 12) (lit 20) (lit (-4))
           Hc eq_refl eq_refl eq_refl eq_refl H).
Defined.



End CoordinateTransform.

(** ** The wheel handlers *)

Section WheelHandler.
Import CameraCanvas.



(** C3 fails: a control-wheel event with [deltaY = 400] on the identity
    camera yields the scale [-1]; nothing clamps it. *)
Lemma handleWheel_negative_scale :
  lit 0 < cz initialCamera
  /\ handleWheel (mkWheel (lit 200) (lit 100) (lit 0) (lit 400) true)
       initialCamera
     = mkCamera (lit (-400)) (lit (-200)) (lit (-1))
  /\ ~ lit 0 < cz (handleWheel
                     (mkWheel (lit 200) (lit 100) (lit 0) (lit 400) true)
                     initialCamera).
Proof.
  assert (H : handleWheel (mkWheel (lit 200) (lit 100) (lit 0) (lit 400) true)
                initialCamera
              = mkCamera (lit (-400)) (lit (-200)) (lit (-1)))
    by (apply Camera_eqb_eq; vm_compute; reflexivity).
  split; [reflexivity|]. split; [exact H|].
  rewrite H. intros Hlt. vm_compute in Hlt. discriminate Hlt.
Qed.

(** C3, amended. A control-wheel event sets the scale to
    [z - deltaY / 200 * z], unclamped; on a camera with positive scale a
    [deltaY] of 200 or more leaves a scale that is zero or negative. *)
Theorem handleWheel_unclamped (c : Camera) (e : WheelEvent) :
  ctrlKey e = true ->
  cz (handleWheel e c) = cz c - deltaY e / TOUCHPAD_ZOOM_SENS * cz c
  /\ (lit 0 < cz c -> lit 200 <= deltaY e -> cz (handleWheel e c) <= lit 0).
Proof.
  intros Hctrl. unfold handleWheel. rewrite Hctrl.
  split; [reflexivity|]. intros Hz Hd.
  destruct c as [cx0 cy0 [z|]]; [|contradiction].
  destruct e as [cX cY dX [d|] k]; [|contradiction].
  unfold zoomCamera, TOUCHPAD_ZOOM_SENS, lit. simpl.
  destruct (Qc_eq_dec (Q2Qc (inject_Z 200)) (Q2Qc 0)) as [E|_];
    [discriminate E|].
  simpl. simpl in Hz, Hd. apply Qcnot_lt_le. intros Hpos.
  apply Qc_zoom_pos in Hpos; [|exact Hz|reflexivity].
  revert Hd. now apply Qclt_not_le.
Qed.

Lemma handleWheel_unclamped_witness :
  ctrlKey (mkWheel (lit 40) (lit 30) (lit 0) (lit 250) true) = true
  /\ lit 0 < lit 2
  /\ lit 200 <= lit 250
  /\ cz (handleWheel (mkWheel (lit 40) (lit 30) (lit 0) (lit 250) true)
           (mkCamera (lit 5) (lit 7) (lit 2)))
     = lit 2 - lit 250 / TOUCHPAD_ZOOM_SENS * lit 2
  /\ cz (handleWheel (mkWheel (lit 40) (lit 30) (lit 0) (lit 250) true)
           (mkCamera (lit 5) (lit 7) (lit 2)))
     <= lit 0.
Proof.
  assert (H2 : lit 0 < lit 2) by reflexivity.
  assert (H3 : lit 200 <= lit 250) by (vm_compute; discriminate).
  split; [reflexivity|]. split; [exact H2|]. split; [exact H3|].
  destruct (handleWheel_unclamped (mkCamera (lit 5) (lit 7) (lit 2))
              (mkWheel (lit 40) (lit 30) (lit 0) (lit 250) true) eq_refl)
    as [Hf Hle].
  split; [exact Hf|]. exact (Hle H2 H3).
Defined.

End WheelHandler.

(** ** The incremental component: shapes of the reachable states *)

Local Open Scope Qc_scope.

Section CanvasInvariant.
Import Canvas.

Lemma ndiv_fin (a b : Qc) : b <> 0 -> (Fin a / Fin b)%num = Fin (a / b).
Proof. intros Hb. simpl. destruct (Qc_eq_dec b 0); [contradiction|reflexivity]. Qed.

Lemma ndiv_zero (a : Qc) : (Fin a / Fin 0)%num = NaN.
Proof. simpl. destruct (Qc_eq_dec 0 0); [reflexivity|congruence]. Qed.

Lemma drawEffect_id s :
  finiteMatrix (transform (ctx s)) = true -> drawEffect s = s.
Proof.
  intros H. unfold drawEffect. destruct (context s) eqn:E; [|reflexivity].
  destruct s as [[W Hh M] ? ? ? ? ? ? ? ? ? ?]. simpl in *.
  unfold setTransform, getTransform. simpl. rewrite H. subst. reflexivity.
Qed.

Variables r w h ol ot : Qc.

Lemma drawEffect_finS W H flag o l sc vx vy ox oy lox loy mx my lx ly :
  drawEffect (finS r W H flag o l sc vx vy ox oy lox loy mx my lx ly)
  = finS r W H flag o l sc vx vy ox oy lox loy mx my lx ly.
Proof. apply drawEffect_id. reflexivity. Qed.

Lemma drawEffect_colS W H flag o l ox oy lox loy mx my lx ly :
  drawEffect (colS W H flag o l ox oy lox loy mx my lx ly)
  = colS W H flag o l ox oy lox loy mx my lx ly.
Proof. apply drawEffect_id. reflexivity. Qed.

Lemma offsetEffect_finS W H flag o l sc vx vy ox oy lox loy mx my lx ly :
  sc <> 0 ->
  offsetEffect (finS r W H flag o l sc vx vy ox oy lox loy mx my lx ly)
  = finS r W H false o l sc (vx - (ox - lox) / sc) (vy - (oy - loy) / sc)
      ox oy lox loy mx my lx ly.
Proof.
  intros Hsc. unfold offsetEffect, finS. cbn [context].
  unfold scalePoint, diffPoints, pt.
  cbn [x y offset lastOffsetRef scale viewportTopLeft nsub].
  rewrite !ndiv_fin by assumption.
  unfold ctx_translate, matrixOf. cbn. peel; field; assumption.
Qed.

Lemma offsetEffect_colS W H flag o l ox oy lox loy mx my lx ly :
  offsetEffect (colS W H flag o l ox oy lox loy mx my lx ly)
  = colS W H false o l ox oy lox loy mx my lx ly.
Proof.
  unfold offsetEffect, colS. cbn [context].
  unfold scalePoint, diffPoints, pt.
  cbn [x y offset lastOffsetRef scale viewportTopLeft nsub].
  rewrite !ndiv_zero. reflexivity.
Qed.

Lemma mouseMove_finS W H flag o l sc vx vy ox oy lox loy mx my lx ly (px py : Qc) :
  mouseMove (pt px py) (finS r W H flag o l sc vx vy ox oy lox loy mx my lx ly)
  = finS r W H flag false l sc vx vy (ox + (px - lx)) (oy + (py - ly))
      lox loy mx my px py.
Proof. reflexivity. Qed.

Lemma mouseMove_colS W H flag o l ox oy lox loy mx my lx ly (px py : Qc) :
  mouseMove (pt px py) (colS W H flag o l ox oy lox loy mx my lx ly)
  = colS W H flag false l (ox + (px - lx)) (oy + (py - ly))
      lox loy mx my px py.
Proof. reflexivity. Qed.

Lemma zoom_fin (dY : Qc) :
  (lit 1 - Fin dY / ZOOM_SENSITIVITY)%num = Fin (1 - dY / Q2Qc (inject_Z 500)).
Proof.
  unfold ZOOM_SENSITIVITY, lit. rewrite ndiv_fin by discriminate. reflexivity.
Qed.

Lemma handleWheel_finS W H flag o l sc vx vy ox oy lox loy mx my lx ly (dY : Qc) :
  sc <> 0 ->
  let zoom := 1 - dY / Q2Qc (inject_Z 500) in
  zoom <> 0 ->
  handleWheel (Fin dY) (finS r W H flag o l sc vx vy ox oy lox loy mx my lx ly)
  = finS r W H false o l (sc * zoom)
      (vx + mx / sc * (1 - 1 / zoom)) (vy + my / sc * (1 - 1 / zoom))
      ox oy lox loy mx my lx ly.
Proof.
  intros Hsc zoom Hz. unfold handleWheel, finS. cbn [context]. cbv zeta.
  rewrite zoom_fin. fold zoom. clearbody zoom.
  unfold addPoints, pt.
  cbn [x y mousePos scale viewportTopLeft ctx offset offsetIsORIGIN lastOffsetRef lastMousePosRef listening].
  unfold lit. change (Q2Qc (inject_Z 1)) with 1%Qc.
  rewrite !ndiv_fin by assumption.
  unfold ctx_translate, ctx_scale, matrixOf. cbn.
  peel; field; repeat split; assumption.
Qed.

Lemma handleWheel_finS_zero W H flag o l sc vx vy ox oy lox loy mx my lx ly (dY : Qc) :
  sc <> 0 ->
  1 - dY / Q2Qc (inject_Z 500) = 0 ->
  handleWheel (Fin dY) (finS r W H flag o l sc vx vy ox oy lox loy mx my lx ly)
  = colS W H false o l ox oy lox loy mx my lx ly.
Proof.
  intros Hsc Hz. unfold handleWheel, finS. cbn [context]. cbv zeta.
  rewrite zoom_fin. rewrite Hz.
  unfold addPoints, pt.
  cbn [x y mousePos scale viewportTopLeft ctx offset offsetIsORIGIN lastOffsetRef lastMousePosRef listening].
  unfold lit. change (Q2Qc (inject_Z 1)) with 1%Qc.
  rewrite !ndiv_fin by assumption. rewrite !ndiv_zero.
  unfold ctx_translate, ctx_scale, matrixOf, colS, zeroMatrix. finish.
Qed.

Lemma handleWheel_colS W H flag o l ox oy lox loy mx my lx ly (dY : Qc) :
  handleWheel (Fin dY) (colS W H flag o l ox oy lox loy mx my lx ly)
  = colS W H false o l ox oy lox loy mx my lx ly.
Proof.
  unfold handleWheel, colS. cbn [context]. cbv zeta.
  rewrite zoom_fin.
  unfold addPoints, pt.
  cbn [x y mousePos scale viewportTopLeft ctx offset offsetIsORIGIN lastOffsetRef lastMousePosRef listening].
  rewrite !ndiv_zero.
  unfold ctx_translate, ctx_scale, zeroMatrix. finish.
Qed.

Lemma reset_finS W H o l sc vx vy ox oy lox loy mx my lx ly :
  reset r w h (finS r W H false o l sc vx vy ox oy lox loy mx my lx ly)
  = finS r (Fin w * Fin r)%num (Fin h * Fin r)%num true true l 1 0 0 0 0 0 0 0 0 0 0.
Proof.
  unfold reset, finS. cbn [isResetRef negb].
  unfold ratio, ctx_scale, set_height, set_width, matrixOf, pt, ORIGIN, identityMatrix.
  cbn. norm_lit. peel; ring.
Qed.

Lemma reset_colS W H o l ox oy lox loy mx my lx ly :
  reset r w h (colS W H false o l ox oy lox loy mx my lx ly)
  = finS r (Fin w * Fin r)%num (Fin h * Fin r)%num true true l 1 0 0 0 0 0 0 0 0 0 0.
Proof.
  unfold reset, finS, colS. cbn [isResetRef negb].
  unfold ratio, ctx_scale, set_height, set_width, matrixOf, pt, ORIGIN, identityMatrix.
  cbn. norm_lit. peel; ring.
Qed.

Lemma syncLastOffset_finS W H flag o l sc vx vy ox oy lox loy mx my lx ly :
  syncLastOffset (finS r W H flag o l sc vx vy ox oy lox loy mx my lx ly)
  = finS r W H flag o l sc vx vy ox oy ox oy mx my lx ly.
Proof. reflexivity. Qed.

Lemma syncLastOffset_colS W H flag o l ox oy lox loy mx my lx ly :
  syncLastOffset (colS W H flag o l ox oy lox loy mx my lx ly)
  = colS W H flag o l ox oy ox oy mx my lx ly.
Proof. reflexivity. Qed.

Lemma handleUpdateMouse_finS W H flag o l sc vx vy ox oy lox loy mx my lx ly (cX cY : Qc) :
  handleUpdateMouse ol ot (Fin cX) (Fin cY)
    (finS r W H flag o l sc vx vy ox oy lox loy mx my lx ly)
  = finS r W H flag o l sc vx vy ox oy lox loy (cX - ol) (cY - ot) lx ly.
Proof. reflexivity. Qed.

Lemma handleUpdateMouse_colS W H flag o l ox oy lox loy mx my lx ly (cX cY : Qc) :
  handleUpdateMouse ol ot (Fin cX) (Fin cY)
    (colS W H flag o l ox oy lox loy mx my lx ly)
  = colS W H flag o l ox oy lox loy (cX - ol) (cY - ot) lx ly.
Proof. reflexivity. Qed.

Lemma initial_reset :
  syncLastOffset (reset r w h (initialState r w h))
  = finS r (Fin w * Fin r)%num (Fin h * Fin r)%num true true false 1 0 0 0 0 0 0 0 0 0 0.
Proof.
  unfold reset, initialState, syncLastOffset, finS. cbn [isResetRef negb].
  unfold ratio, ctx_scale, set_height, set_width, matrixOf, pt, ORIGIN, identityMatrix.
  cbn. norm_lit. peel; ring.
Qed.

Lemma finS_ext W H flag o l sc vx vy ox oy lox loy mx my lx ly
  sc' vx' vy' ox' oy' lox' loy' mx' my' lx' ly' :
  sc = sc' -> vx = vx' -> vy = vy' -> ox = ox' -> oy = oy' -> lox = lox' ->
  loy = loy' -> mx = mx' -> my = my' -> lx = lx' -> ly = ly' ->
  finS r W H flag o l sc vx vy ox oy lox loy mx my lx ly
  = finS r W H flag o l sc' vx' vy' ox' oy' lox' loy' mx' my' lx' ly'.
Proof. intros; subst; reflexivity. Qed.

Lemma Tracked_mount : Tracked r (mount r w h).
Proof.
  unfold mount, commit. rewrite initial_reset.
  rewrite drawEffect_finS, offsetEffect_finS by discriminate.
  rewrite drawEffect_finS.
  replace ((0 - (0 - 0) / 1)) with 0%Qc by (field; discriminate).
  apply Tracked_finite; [discriminate|discriminate].
Qed.

(** *** What one event does to a state of either shape *)

Lemma step_move_finS W H flag o sc vx vy ox oy mx my lx ly (pX pY : Qc) :
  sc <> 0 ->
  step r w h ol ot
    (finS r W H flag o true sc vx vy ox oy ox oy mx my lx ly)
    (MouseMove pX pY)
  = finS r W H false false true sc
      (vx - (pX - lx) / sc) (vy - (pY - ly) / sc)
      (ox + (pX - lx)) (oy + (pY - ly)) (ox + (pX - lx)) (oy + (pY - ly))
      mx my pX pY.
Proof.
  intros Hsc. cbn [step finS listening context andb].
  change {| x := Fin pX; y := Fin pY |} with (pt pX pY).
  fold (finS r W H flag o true sc vx vy ox oy ox oy mx my lx ly).
  rewrite mouseMove_finS. unfold commit.
  rewrite drawEffect_finS, offsetEffect_finS by assumption.
  rewrite syncLastOffset_finS, drawEffect_finS.
  apply finS_ext; try reflexivity; field; assumption.
Qed.

Lemma step_move_colS W H flag o ox oy mx my lx ly (pX pY : Qc) :
  step r w h ol ot (colS W H flag o true ox oy ox oy mx my lx ly)
    (MouseMove pX pY)
  = colS W H false false true
      (ox + (pX - lx)) (oy + (pY - ly)) (ox + (pX - lx)) (oy + (pY - ly))
      mx my pX pY.
Proof.
  cbn [step colS listening context andb].
  change {| x := Fin pX; y := Fin pY |} with (pt pX pY).
  fold (colS W H flag o true ox oy ox oy mx my lx ly).
  rewrite mouseMove_colS. unfold commit.
  rewrite drawEffect_colS, offsetEffect_colS.
  rewrite syncLastOffset_colS, drawEffect_colS. reflexivity.
Qed.

Lemma step_wheel_finS W H flag o l sc vx vy ox oy mx my lx ly
  (cX cY dY : Qc) :
  sc <> 0 ->
  let zoom := 1 - dY / Q2Qc (inject_Z 500) in
  zoom <> 0 ->
  step r w h ol ot (finS r W H flag o l sc vx vy ox oy ox oy mx my lx ly)
    (Wheel cX cY dY)
  = finS r W H false o l (sc * zoom)
      (vx + mx / sc * (1 - 1 / zoom)) (vy + my / sc * (1 - 1 / zoom))
      ox oy ox oy (cX - ol) (cY - ot) lx ly.
Proof.
  intros Hsc zoom Hz. cbn [step]. cbv zeta.
  rewrite handleWheel_finS by assumption. fold zoom.
  rewrite handleUpdateMouse_finS. unfold commit.
  rewrite drawEffect_finS.
  assert (Hsc' : sc * zoom <> 0).
  { intros E. apply Qcmult_integral in E. tauto. }
  match goal with |- context [if ?b then _ else _] => destruct b end.
  - rewrite offsetEffect_finS, drawEffect_finS by assumption.
    apply finS_ext; try reflexivity; field; auto.
  - rewrite drawEffect_finS. reflexivity.
Qed.

Lemma step_wheel_finS_zero W H flag o l sc vx vy ox oy mx my lx ly
  (cX cY dY : Qc) :
  sc <> 0 ->
  1 - dY / Q2Qc (inject_Z 500) = 0 ->
  step r w h ol ot (finS r W H flag o l sc vx vy ox oy ox oy mx my lx ly)
    (Wheel cX cY dY)
  = colS W H false o l ox oy ox oy (cX - ol) (cY - ot) lx ly.
Proof.
  intros Hsc Hz. cbn [step]. cbv zeta.
  rewrite handleWheel_finS_zero by assumption.
  rewrite handleUpdateMouse_colS. unfold commit.
  rewrite drawEffect_colS.
  match goal with |- context [if ?b then _ else _] => destruct b end;
    rewrite ?offsetEffect_colS, drawEffect_colS; reflexivity.
Qed.

Lemma step_wheel_colS W H flag o l ox oy mx my lx ly (cX cY dY : Qc) :
  step r w h ol ot (colS W H flag o l ox oy ox oy mx my lx ly)
    (Wheel cX cY dY)
  = colS W H false o l ox oy ox oy (cX - ol) (cY - ot) lx ly.
Proof.
  cbn [step]. cbv zeta. rewrite handleWheel_colS, handleUpdateMouse_colS.
  unfold commit. rewrite drawEffect_colS.
  match goal with |- context [if ?b then _ else _] => destruct b end;
    rewrite ?offsetEffect_colS, drawEffect_colS; reflexivity.
Qed.

(** A click on the reset button that finds the flag clear resets the state;
    the flag survives the following renders only when neither [scale] nor
    the [offset] object changed. *)
Lemma commit_after_reset (c o : bool) l :
  exists flag,
    commit c o
      (finS r (Fin w * Fin r)%num (Fin h * Fin r)%num true true l
         1 0 0 0 0 0 0 0 0 0 0)
    = finS r (Fin w * Fin r)%num (Fin h * Fin r)%num flag true l
        1 0 0 0 0 0 0 0 0 0 0.
Proof.
  unfold commit. rewrite drawEffect_finS.
  destruct c; [exists false|exists true];
    rewrite ?offsetEffect_finS by discriminate;
    destruct o; rewrite ?syncLastOffset_finS, drawEffect_finS;
    try reflexivity;
    apply finS_ext; try reflexivity; field; discriminate.
Qed.

Lemma step_reset_finS W H o l sc vx vy ox oy mx my lx ly :
  exists flag,
    step r w h ol ot
      (finS r W H false o l sc vx vy ox oy ox oy mx my lx ly) ResetClick
    = finS r (Fin w * Fin r)%num (Fin h * Fin r)%num flag true l
        1 0 0 0 0 0 0 0 0 0 0.
Proof.
  cbn [step finS context isResetRef]. cbv zeta.
  fold (finS r W H false o l sc vx vy ox oy ox oy mx my lx ly).
  rewrite reset_finS. apply commit_after_reset.
Qed.

Lemma step_reset_colS W H o l ox oy mx my lx ly :
  exists flag,
    step r w h ol ot (colS W H false o l ox oy ox oy mx my lx ly) ResetClick
    = finS r (Fin w * Fin r)%num (Fin h * Fin r)%num flag true l
        1 0 0 0 0 0 0 0 0 0 0.
Proof.
  cbn [step colS context isResetRef]. cbv zeta.
  fold (colS W H false o l ox oy ox oy mx my lx ly).
  rewrite reset_colS. apply commit_after_reset.
Qed.

Lemma step_reset_flagged W H o l sc vx vy ox oy mx my lx ly :
  step r w h ol ot
    (finS r W H true o l sc vx vy ox oy ox oy mx my lx ly) ResetClick
  = finS r W H true o l sc vx vy ox oy ox oy mx my lx ly.
Proof. reflexivity. Qed.

Lemma Tracked_reset_state flag l :
  Tracked r
    (finS r (Fin w * Fin r)%num (Fin h * Fin r)%num flag true l
       1 0 0 0 0 0 0 0 0 0 0).
Proof.
  apply Tracked_finite; [discriminate|]. intros _. repeat split; reflexivity.
Qed.

Lemma Tracked_step s e : Tracked r s -> Tracked r (step r w h ol ot s e).
Proof.
  intros [W H flag o l sc vx vy ox oy mx my lx ly Hsc Hflag
         |W H o l ox oy mx my lx ly];
    destruct e as [pX pY|pX pY| |cX cY|cX cY dY| ].
  - apply Tracked_finite; assumption.
  - destruct l; [|apply Tracked_finite; assumption].
    rewrite step_move_finS by assumption.
    apply Tracked_finite; [assumption|discriminate].
  - destruct l; [|apply Tracked_finite; assumption].
    apply (Tracked_finite r W H flag o false); assumption.
  - cbn [step]. rewrite handleUpdateMouse_finS.
    apply Tracked_finite; assumption.
  - destruct (Qc_eq_dec (1 - dY / Q2Qc (inject_Z 500)) 0) as [Hz|Hz].
    + rewrite step_wheel_finS_zero by assumption. apply Tracked_collapsed.
    + rewrite step_wheel_finS by assumption.
      apply Tracked_finite; [|discriminate].
      intros E. apply Qcmult_integral in E. tauto.
  - destruct flag.
    + rewrite step_reset_flagged. apply Tracked_finite; assumption.
    + destruct (step_reset_finS W H o l sc vx vy ox oy mx my lx ly)
        as [flag ->].
      apply Tracked_reset_state.
  - apply Tracked_collapsed.
  - destruct l; [|apply Tracked_collapsed].
    rewrite step_move_colS. apply Tracked_collapsed.
  - destruct l; [|apply Tracked_collapsed].
    apply (Tracked_collapsed r W H o false).
  - cbn [step]. rewrite handleUpdateMouse_colS. apply Tracked_collapsed.
  - rewrite step_wheel_colS. apply Tracked_collapsed.
  - destruct (step_reset_colS W H o l ox oy mx my lx ly) as [flag ->].
    apply Tracked_reset_state.
Qed.

Lemma Tracked_run evs : Tracked r (run r w h ol ot evs).
Proof.
  unfold run. generalize Tracked_mount. generalize (mount r w h).
  induction evs as [|e evs IH]; intros s Hs; simpl; [exact Hs|].
  apply IH. now apply Tracked_step.
Qed.



(** The context of a reachable state is what a redraw from scratch, on a
    surface scaled by the device pixel ratio, would install for the camera
    the state stands for. *)
Lemma Tracked_redraw s :
  Tracked r s -> ctx s = drawTransformScaled (ratio r) (ctx s) (cameraOf s).
Proof.
  intros [W H flag o l sc vx vy ox oy mx my lx ly Hsc Hflag
         |W H o l ox oy mx my lx ly];
    unfold drawTransformScaled, cameraOf, ratio, finS, colS, matrixOf,
      zeroMatrix, resetTransform, ctx_scale, ctx_translate, identityMatrix;
    cbn; norm_lit; peel; ring.
Qed.

(** A mouse move during a drag moves the camera of the state as [panCamera]
    does for the opposite of the pointer displacement: the content follows
    the pointer. *)
Lemma cameraOf_move s (pX pY : Qc) :
  Tracked r s ->
  listening s = true ->
  cameraOf (step r w h ol ot s (MouseMove pX pY))
  = CameraCanvas.panCamera (cameraOf s)
      (x (lastMousePosRef s) - Fin pX)%num
      (y (lastMousePosRef s) - Fin pY)%num.
Proof.
  intros [W H flag o l sc vx vy ox oy mx my lx ly Hsc Hflag
         |W H o l ox oy mx my lx ly] Hl; cbn in Hl; subst l.
  - rewrite step_move_finS by assumption.
    unfold CameraCanvas.panCamera, cameraOf, finS, pt.
    cbn [cx cy cz x y scale viewportTopLeft lastMousePosRef nneg nsub].
    rewrite !ndiv_fin by assumption. cbn [nsub].
    peel; field; assumption.
  - rewrite step_move_colS. reflexivity.
Qed.

(** After a click on the reset button the state is the reset one, whether
    or not the flag let [reset] run. *)
Lemma reset_click_shape s :
  Tracked r s ->
  exists W H flag mx my lx ly,
    step r w h ol ot s ResetClick
    = finS r W H flag true (listening s) 1 0 0 0 0 0 0 mx my lx ly.
Proof.
  intros [W H flag o l sc vx vy ox oy mx my lx ly Hsc Hflag
         |W H o l ox oy mx my lx ly].
  - destruct flag.
    + destruct (Hflag eq_refl) as (-> & -> & -> & -> & -> & ->).
      rewrite step_reset_flagged.
      now exists W, H, true, mx, my, lx, ly.
    + destruct (step_reset_finS W H o l sc vx vy ox oy mx my lx ly)
        as [flag ->].
      now exists (Fin w * Fin r)%num, (Fin h * Fin r)%num, flag, 0, 0, 0, 0.
  - destruct (step_reset_colS W H o l ox oy mx my lx ly) as [flag ->].
    now exists (Fin w * Fin r)%num, (Fin h * Fin r)%num, flag, 0, 0, 0, 0.
Qed.

End CanvasInvariant.

(** ** The incremental component: reset and redraw *)

Section CanvasTheorems.
Import Canvas.

Lemma drawTransformScaled_one (c : Context2D) (camera : Camera) :
  drawTransformScaled (ratio 1) c camera = drawTransform c camera.
Proof.
  unfold drawTransformScaled, drawTransform. reflexivity.
Qed.

(** A listener handling an event in the state of the render that
    registered it is the [handleWheel] that [step] runs. *)
Lemma handleWheelFrom_current (deltaY : number) (s : State) :
  WheelListener.handleWheelFrom s deltaY s = handleWheel deltaY s.
Proof.
  reflexivity.
Qed.

(** Two wheel events of 250 at (100, 100) that reach the same registered
    listener: the context is scaled twice, to [[1/4 0 75; 0 1/4 75]], while
    both events store the scale 1/2 and the corner (-100, -100), for which a
    redraw from scratch installs [[1/2 0 50; 0 1/2 50]]. *)
Lemma quick_wheels_scale_context_twice :
  let s0 := run 1 (qz 500) (qz 500) 0 0
              [CanvasMouseMove (qz 100) (qz 100)] in
  let s2 := commit true false
              (WheelListener.handleWheelFrom s0 (lit 250)
                 (WheelListener.handleWheelFrom s0 (lit 250) s0)) in
  transform (ctx s2)
  = mkMatrix (frac 1 4) (lit 0) (lit 0) (frac 1 4) (lit 75) (lit 75)
  /\ scale s2 = frac 1 2
  /\ viewportTopLeft s2 = mkPoint (lit (-100)) (lit (-100))
  /\ transform (drawTransform (ctx s2) (cameraOf s2))
     = mkMatrix (frac 1 2) (lit 0) (lit 0) (frac 1 2) (lit 50) (lit 50).
Proof.
  cbv zeta.
  split; [apply Matrix_eqb_eq; vm_compute; reflexivity|].
  split; [apply number_eqb_eq; vm_compute; reflexivity|].
  split; [apply Point_eqb_eq; vm_compute; reflexivity|].
  apply Matrix_eqb_eq; vm_compute; reflexivity.
Qed.

(** C9 fails on a display whose device pixel ratio is 2: after a drag and a
    wheel tick the context holds [[1 0 120; 0 1 115]], while a redraw from
    scratch for the tracked camera installs [[1/2 0 60; 0 1/2 115/2]]; the
    two already differ right after mounting. *)
Lemma incremental_transform_at_ratio_two :
  transform (ctx (run (qz 2) (qz 500) (qz 500) 0 0 dragThenZoomEvents))
  = mkMatrix (lit 1) (lit 0) (lit 0) (lit 1) (lit 120) (lit 115)
  /\ transform
       (drawTransform
          (ctx (run (qz 2) (qz 500) (qz 500) 0 0 dragThenZoomEvents))
          (cameraOf (run (qz 2) (qz 500) (qz 500) 0 0 dragThenZoomEvents)))
     = mkMatrix (frac 1 2) (lit 0) (lit 0) (frac 1 2) (lit 60) (frac 115 2)
  /\ transform (ctx (run (qz 2) (qz 500) (qz 500) 0 0 dragThenZoomEvents))
     <> transform
          (drawTransform
             (ctx (run (qz 2) (qz 500) (qz 500) 0 0 dragThenZoomEvents))
             (cameraOf
                (run (qz 2) (qz 500) (qz 500) 0 0 dragThenZoomEvents)))
  /\ transform (ctx (run (qz 2) (qz 500) (qz 500) 0 0 []))
     <> transform
          (drawTransform (ctx (run (qz 2) (qz 500) (qz 500) 0 0 []))
             (cameraOf (run (qz 2) (qz 500) (qz 500) 0 0 []))).
Proof.
  assert (neq : forall m n, Matrix_eqb m n = false -> m <> n).
  { intros m n E F. apply Matrix_eqb_eq in F. congruence. }
  split; [apply Matrix_eqb_eq; vm_compute; reflexivity|].
  split; [apply Matrix_eqb_eq; vm_compute; reflexivity|].
  split; apply neq; vm_compute; reflexivity.
Qed.

(** C9, amended. Over exact arithmetic, and with every event handled
    after the renders and effects of the event before it have finished:
    after every sequence of events the context of the incremental component
    is the one a redraw from scratch installs for the camera
    [{x: -viewportTopLeft.x, y: -viewportTopLeft.y, z: scale}] on a surface
    first scaled by the device pixel ratio; with a ratio of 1 it is the
    context [resetTransform(); scale(z, z); translate(x, y)] itself. *)
Theorem incremental_transform_is_scaled_redraw
  (r w h ol ot : Qc) (events : list Event) :
  ctx (run r w h ol ot events)
  = drawTransformScaled (ratio r) (ctx (run r w h ol ot events))
      (cameraOf (run r w h ol ot events))
  /\ ctx (run 1 w h ol ot events)
     = drawTransform (ctx (run 1 w h ol ot events))
         (cameraOf (run 1 w h ol ot events)).
Proof.
  split.
  - apply Tracked_redraw, Tracked_run.
  - rewrite <- drawTransformScaled_one.
    apply Tracked_redraw, Tracked_run.
Qed.

(** C7 fails: a reset during a drag puts the camera back to the identity
    but leaves the document listeners registered, so the drag goes on. *)
Lemma reset_click_keeps_listening :
  listening (run 1 (qz 500) (qz 500) 0 0 dragEvents) = true
  /\ cameraOf
       (step 1 (qz 500) (qz 500) 0 0
          (run 1 (qz 500) (qz 500) 0 0 dragEvents) ResetClick)
     = CameraCanvas.initialCamera
  /\ listening
       (step 1 (qz 500) (qz 500) 0 0
          (run 1 (qz 500) (qz 500) 0 0 dragEvents) ResetClick)
     <> false.
Proof.
  split; [vm_compute; reflexivity|].
  split; [apply Camera_eqb_eq; vm_compute; reflexivity|].
  vm_compute. discriminate.
Qed.

(** C7, amended. From every state the mounted component reaches, a click
    on reset leaves scale 1, offset and viewport corner at the origin, hence
    the identity camera, and a context transform that is the bare scaling
    by the device pixel ratio; it does not touch the listener registration;
    a second click leaves the same camera. *)
Theorem reset_click_resets_camera
  (r w h ol ot : Qc) (events : list Event) :
  let s := run r w h ol ot events in
  let s1 := step r w h ol ot s ResetClick in
  let s2 := step r w h ol ot s1 ResetClick in
  cameraOf s1 = CameraCanvas.initialCamera
  /\ scale s1 = lit 1
  /\ offset s1 = ORIGIN
  /\ viewportTopLeft s1 = ORIGIN
  /\ transform (ctx s1)
     = transform (ctx_scale (resetTransform (ctx s1)) (ratio r) (ratio r))
  /\ listening s1 = listening s
  /\ cameraOf s2 = cameraOf s1.
Proof.
  intros s s1 s2.
  assert (Hs : Tracked r s) by apply Tracked_run.
  assert (Hs1 : Tracked r s1) by now apply Tracked_step.
  destruct (reset_click_shape r w h ol ot s Hs)
    as (W & H & flag & mx & my & lx & ly & E).
  destruct (reset_click_shape r w h ol ot s1 Hs1)
    as (W' & H' & flag' & mx' & my' & lx' & ly' & E').
  fold s1 in E. fold s2 in E'. rewrite E'. rewrite E.
  unfold cameraOf, CameraCanvas.initialCamera, finS, pt, ORIGIN, ratio,
    matrixOf, ctx_scale, resetTransform, identityMatrix.
  cbn. norm_lit. repeat split; peel; ring.
Qed.

End CanvasTheorems.

(** ** More on the camera-based component *)

Section CameraComponentFacts.
Import CameraCanvas.
Local Open Scope number_scope.

(** X4. For a valid camera the viewport the component computes for the
    window has its top-left corner at the negated camera offset, whatever
    the size of the window. *)
Theorem viewport_starts_at_negated_offset
  (c : Camera) (innerWidth innerHeight : number) :
  validCamera c ->
  CameraComponent.topLeft
    (CameraComponent.viewport c innerWidth innerHeight)
  = {| x := - cx c; y := - cy c |}.
Proof.
  intros Hc. destruct (validCamera_inv c Hc) as (cx0 & cy0 & z & -> & Hz).
  unfold CameraComponent.viewport, CameraComponent.getViewport,
    screenToCanvas, ORIGIN.
  cbn [CameraComponent.topLeft x y cx cy cz].
  norm_lit. solve_num.
Qed.

Lemma viewport_starts_at_negated_offset_witness :
  validCamera (mkCamera (lit 3) (lit (-2)) (lit 2))
  /\ CameraComponent.topLeft
       (CameraComponent.viewport (mkCamera (lit 3) (lit (-2)) (lit 2))
          (lit 800) (lit 600))
     = {| x := - lit 3; y := - lit (-2) |}.
Proof.
  assert (H : validCamera (mkCamera (lit 3) (lit (-2)) (lit 2)))
    by (repeat split; reflexivity).
  split; [exact H|].
  exact (viewport_starts_at_negated_offset
           (mkCamera (lit 3) (lit (-2)) (lit 2)) (lit 800) (lit 600) H).
Defined.

Lemma Qc_zoom_out (z d k : Qc) :
  (0 <= z -> 0 <= d -> d < k ->
   0 <= z - d / k * z /\ z - d / k * z <= z)%Qc.
Proof.
  intros Hz Hd Hk.
  assert (Hk0 : (0 < k)%Qc) by (eapply Qcle_lt_trans; eassumption).
  assert (Hik : (0 < / k)%Qc) by now apply Qcinv_pos.
  assert (Hq0 : (0 <= d / k)%Qc).
  { unfold Qcdiv. replace 0%Qc with (0 * / k)%Qc by ring.
    apply Qcmult_le_compat_r; [exact Hd|now apply Qclt_le_weak]. }
  assert (Hq1 : (d / k <= 1)%Qc).
  { apply Qclt_le_weak. unfold Qcdiv.
    replace 1%Qc with (k * / k)%Qc
      by (apply Qcmult_inv_r; now apply Qclt_neq0).
    now apply Qcmult_lt_compat_r. }
  assert (H0 : (0 <= d / k * z)%Qc).
  { replace 0%Qc with (0 * z)%Qc by ring.
    now apply Qcmult_le_compat_r. }
  assert (H1 : (d / k * z <= z)%Qc).
  { replace z with (1 * z)%Qc at 2 by ring.
    now apply Qcmult_le_compat_r. }
  split.
  - apply Qcle_minus_iff in H1. exact H1.
  - apply Qcle_minus_iff.
    replace (z + - (z - d / k * z))%Qc with (d / k * z)%Qc by ring.
    exact H0.
Qed.

Lemma nle_below (a b : number) : a <= b -> b <= b.
Proof.
  destruct a, b; simpl; try contradiction. intros _. apply Qcle_refl.
Qed.

Lemma nle_trans (a b c : number) : a <= b -> b <= c -> a <= c.
Proof.
  destruct a, b, c; simpl; try contradiction. apply Qcle_trans.
Qed.



(** X7. Whatever transform the context held before, the draw effect of
    the camera-based component leaves the matrix [[z 0 z*x; 0 z z*y]] for
    every real-valued camera, and keeps the size of the canvas. *)
Theorem drawTransform_matrix (c : Context2D) (camera : Camera) :
  realCamera camera ->
  drawTransform c camera
  = mkContext (width c) (height c)
      (mkMatrix (cz camera) (lit 0) (lit 0) (cz camera)
         (cz camera * cx camera) (cz camera * cy camera)).
Proof.
  intros (Hx & Hy & Hz).
  destruct camera as [[cx0|] [cy0|] [z|]]; try discriminate.
  unfold drawTransform, ctx_translate, ctx_scale, resetTransform,
    identityMatrix.
  cbn. norm_lit. peel; ring.
Qed.

Lemma drawTransform_matrix_witness :
  realCamera (mkCamera (lit 3) (lit (-2)) (lit 2))
  /\ drawTransform
       (mkContext (lit 800) (lit 600)
          (mkMatrix (lit 4) (lit 0) (lit 0) (lit 4) (lit 9) (lit 9)))
       (mkCamera (lit 3) (lit (-2)) (lit 2))
     = mkContext (lit 800) (lit 600)
         (mkMatrix (lit 2) (lit 0) (lit 0) (lit 2)
            (lit 2 * lit 3) (lit 2 * lit (-2))).
Proof.
  assert (H1 : realCamera (mkCamera (lit 3) (lit (-2)) (lit 2)))
    by (repeat split; reflexivity).
  split; [exact H1|].
  exact (drawTransform_matrix
           (mkContext (lit 800) (lit 600)
              (mkMatrix (lit 4) (lit 0) (lit 0) (lit 4) (lit 9) (lit 9)))
           (mkCamera (lit 3) (lit (-2)) (lit 2)) H1).
Defined.

End CameraComponentFacts.

(** ** More on the incremental component *)

Section CanvasFacts.
Import Canvas.
Variables r w h ol ot : Qc.


(** X10. Once the renders and effects of an event have finished, the ref
    [lastOffsetRef] holds the current [offset], the context is stored, and
    the offset is a real point. *)
Theorem between_events (events : list Event) :
  lastOffsetRef (run r w h ol ot events) = offset (run r w h ol ot events)
  /\ context (run r w h ol ot events) = true
  /\ realPoint (offset (run r w h ol ot events)).
Proof.
  destruct (Tracked_run r w h ol ot events); repeat split.
Qed.

(** X11. The reset flag is only set while the view is the identity: scale
    1, offset and viewport corner at the origin, [offset] being [ORIGIN]
    itself.  So a [reset] that the flag suppresses had nothing to do. *)
Theorem flag_means_identity (events : list Event) :
  isResetRef (run r w h ol ot events) = true ->
  scale (run r w h ol ot events) = lit 1
  /\ offset (run r w h ol ot events) = ORIGIN
  /\ viewportTopLeft (run r w h ol ot events) = ORIGIN
  /\ offsetIsORIGIN (run r w h ol ot events) = true.
Proof.
  destruct (Tracked_run r w h ol ot events)
    as [W H flag o l sc vx vy ox oy mx my lx ly Hsc Hflag
       |W H o l ox oy mx my lx ly]; cbn; intros Hf; [|discriminate].
  destruct (Hflag Hf) as (-> & -> & -> & -> & -> & ->).
  repeat split.
Qed.

End CanvasFacts.


Lemma flag_means_identity_witness :
  Canvas.isResetRef
    (Canvas.run 1 (qz 500) (qz 500) 0 0 [Canvas.ResetClick]) = true
  /\ (Canvas.scale (Canvas.run 1 (qz 500) (qz 500) 0 0 [Canvas.ResetClick])
      = lit 1
      /\ Canvas.offset
           (Canvas.run 1 (qz 500) (qz 500) 0 0 [Canvas.ResetClick])
         = ORIGIN
      /\ Canvas.viewportTopLeft
           (Canvas.run 1 (qz 500) (qz 500) 0 0 [Canvas.ResetClick])
         = ORIGIN
      /\ Canvas.offsetIsORIGIN
           (Canvas.run 1 (qz 500) (qz 500) 0 0 [Canvas.ResetClick])
         = true).
Proof.
  assert (H : Canvas.isResetRef
                (Canvas.run 1 (qz 500) (qz 500) 0 0 [Canvas.ResetClick])
              = true)
    by (vm_compute; reflexivity).
  split; [exact H|].
  exact (flag_means_identity 1 (qz 500) (qz 500) 0 0
           [Canvas.ResetClick] H).
Defined.

(** ** The incremental component with touch and pinch support *)

Section PinchFacts.
Import Canvas.
Variables r w h ol ot : Qc.

Lemma setListening_same (b : Canvas.State) :
  setListening (listening b) b = b.
Proof. destruct b; reflexivity. Qed.

Lemma drawEffect_setListening (l : bool) (b : Canvas.State) :
  drawEffect (setListening l b) = setListening l (drawEffect b).
Proof.
  destruct b as [cx0 k f sc off oi lo v m lm li].
  unfold drawEffect, setListening. destruct k; reflexivity.
Qed.

Lemma offsetEffect_setListening (l : bool) (b : Canvas.State) :
  offsetEffect (setListening l b) = setListening l (offsetEffect b).
Proof.
  destruct b as [cx0 k f sc off oi lo v m lm li].
  unfold offsetEffect, setListening. destruct k; reflexivity.
Qed.

Lemma syncLastOffset_setListening (l : bool) (b : Canvas.State) :
  syncLastOffset (setListening l b) = setListening l (syncLastOffset b).
Proof. reflexivity. Qed.

Lemma commit_setListening (c o l : bool) (b : Canvas.State) :
  commit c o (setListening l b) = setListening l (commit c o b).
Proof.
  unfold commit. cbv zeta.
  destruct c, o;
    rewrite ?drawEffect_setListening, ?offsetEffect_setListening,
      ?syncLastOffset_setListening, ?drawEffect_setListening;
    reflexivity.
Qed.

Lemma mouseMove_setListening (p : Point) (l : bool) (b : Canvas.State) :
  mouseMove p (setListening l b) = setListening l (mouseMove p b).
Proof.
  destruct b as [cx0 k f sc off oi lo v m lm li].
  unfold mouseMove, setListening. destruct k; reflexivity.
Qed.

Lemma touchMove_one (a : Qc * Qc) (b : Canvas.State) :
  PinchCanvas.touchMove (PinchCanvas.touchPoints [a]) b
  = Some (mouseMove {| x := Fin (fst a); y := Fin (snd a) |} b).
Proof.
  unfold PinchCanvas.touchMove, mouseMove. destruct (context b); reflexivity.
Qed.

Lemma listening_drawEffect (b : Canvas.State) :
  listening (drawEffect b) = listening b.
Proof. unfold drawEffect. destruct (context b); reflexivity. Qed.

Lemma listening_offsetEffect (b : Canvas.State) :
  listening (offsetEffect b) = listening b.
Proof. unfold offsetEffect. destruct (context b); reflexivity. Qed.

Lemma listening_commit (c o : bool) (b : Canvas.State) :
  listening (commit c o b) = listening b.
Proof.
  unfold commit. cbv zeta. rewrite listening_drawEffect.
  destruct c, o; cbn [syncLastOffset listening];
    rewrite ?listening_offsetEffect, ?listening_drawEffect; reflexivity.
Qed.

Lemma listening_mouseMove (p : Point) (b : Canvas.State) :
  listening (mouseMove p b) = listening b.
Proof.
  destruct b as [cx0 k f sc off oi lo v m lm li].
  unfold mouseMove. destruct k; reflexivity.
Qed.

Lemma context_setListening (l : bool) (b : Canvas.State) :
  context (setListening l b) = context b.
Proof. reflexivity. Qed.

(** The moves of a touch drag and of a mouse drag keep the two states
    equal up to which listeners are registered. *)
Lemma drag_moves_agree (moves : list (Qc * Qc)) (b : Canvas.State) :
  listening b = false ->
  exists b',
    listening b' = false
    /\ fold_left (PinchCanvas.step r w h ol ot)
         (map (fun p => PinchCanvas.TouchMove [p]) moves)
         (PinchCanvas.mkState b true)
       = PinchCanvas.mkState b' true
    /\ fold_left (PinchCanvas.step r w h ol ot)
         (map (fun p => PinchCanvas.MouseMove (fst p) (snd p)) moves)
         (PinchCanvas.mkState (setListening true b) false)
       = PinchCanvas.mkState (setListening true b') false.
Proof.
  revert b. induction moves as [|p moves IH]; intros b Hb.
  - exists b. repeat split. exact Hb.
  - cbn [map fold_left PinchCanvas.step PinchCanvas.base
         PinchCanvas.touching andb].
    rewrite context_setListening. cbn [setListening listening andb].
    destruct (context b) eqn:Hk.
    + rewrite touchMove_one. unfold PinchCanvas.onBase.
      cbn [PinchCanvas.base PinchCanvas.touching].
      fold (setListening true b).
      rewrite mouseMove_setListening, commit_setListening.
      apply IH. now rewrite listening_commit, listening_mouseMove.
    + fold (setListening true b). now apply IH.
Qed.


End PinchFacts.


Section AverageFacts.
Import Canvas.

Lemma count_succ (n : nat) :
  Q2Qc (inject_Z (Z.of_nat (S n))) = Q2Qc (inject_Z (Z.of_nat n)) + 1.
Proof.
  apply Qc_is_canon. unfold Qcplus, Q2Qc. cbn [this].
  rewrite !Qred_correct, Nat2Z.inj_succ. unfold Z.succ.
  rewrite inject_Z_plus. reflexivity.
Qed.

Lemma count_nonzero (n : nat) : Q2Qc (inject_Z (Z.of_nat (S n))) <> 0.
Proof.
  intros E. apply Q2Qc_eq_iff in E. unfold Qeq in E. simpl in E. lia.
Qed.

(** Summing a real coordinate [f] over real points gives a real number, and
    moving every point so that [f] grows by [df] adds [df] once per point. *)
Lemma fold_shift (f : Point -> number) (g : Point -> Point) (df : Qc)
  (ps : list Point) :
  Forall (fun p => exists u, f p = Fin u /\ f (g p) = Fin (u + df)) ps ->
  forall a a' : Qc,
  exists t : Qc,
    fold_left (fun acc v => (acc + f v)%num) ps (Fin a) = Fin t
    /\ fold_left (fun acc v => (acc + f v)%num) (map g ps) (Fin a')
       = Fin (t + (a' - a) + Q2Qc (inject_Z (Z.of_nat (length ps))) * df).
Proof.
  induction 1 as [|p ps (u & Hu & Hg) _ IH]; intros a a'.
  - exists a. split; [reflexivity|]. cbn [map fold_left length]. f_equal.
    change (Q2Qc (inject_Z (Z.of_nat 0))) with 0%Qc. ring.
  - cbn [map fold_left length]. rewrite Hu, Hg. cbn [nadd].
    destruct (IH (a + u) (a' + (u + df))) as (t & Ht & Ht').
    exists t. split; [exact Ht|]. rewrite Ht'. f_equal.
    rewrite count_succ. ring.
Qed.

Lemma realPoint_inv (p : Point) :
  realPoint p -> exists u v : Qc, p = pt u v.
Proof.
  destruct p as [[u|] [v|]]; intros [Hx Hy]; try discriminate.
  now exists u, v.
Qed.

(** X16. On real points [averagePoints] returns a real point exactly when
    the list is not empty; on the empty list both coordinates are the
    result of dividing zero by zero. *)
Theorem averagePoints_real_iff (points : list Point) :
  Forall realPoint points ->
  (realPoint (PinchCanvas.averagePoints points) <-> points <> []).
Proof.
  intros Hall. split.
  - intros [Hx _] ->. vm_compute in Hx. discriminate Hx.
  - intros Hne. destruct points as [|p ps]; [congruence|].
    assert (Hf : forall f : Point -> number,
               Forall (fun q => exists u, f q = Fin u
                                          /\ f q = Fin (u + 0)) (p :: ps) ->
               isFinite
                 (fold_left (fun acc v => (acc + f v)%num) (p :: ps) (lit 0)
                  / lit (Z.of_nat (length (p :: ps))))%num = true).
    { intros f Hfp.
      destruct (fold_shift f (fun q => q) 0 (p :: ps) Hfp
                  (Q2Qc (inject_Z 0)) 0) as (t & Ht & _).
      unfold lit. rewrite Ht. rewrite ndiv_fin by apply count_nonzero.
      reflexivity. }
    split; apply Hf; (eapply Forall_impl; [|exact Hall]);
      intros q Hq; destruct (realPoint_inv q Hq) as (u & v & ->);
      [exists u|exists v]; cbn; split; try reflexivity; f_equal; ring.
Qed.

Lemma averagePoints_real_iff_witness :
  Forall realPoint [mkPoint (lit 2) (lit 4); mkPoint (lit 6) (lit 10)]
  /\ (realPoint
        (PinchCanvas.averagePoints
           [mkPoint (lit 2) (lit 4); mkPoint (lit 6) (lit 10)])
      <-> [mkPoint (lit 2) (lit 4); mkPoint (lit 6) (lit 10)] <> []).
Proof.
  assert (H : Forall realPoint
                [mkPoint (lit 2) (lit 4); mkPoint (lit 6) (lit 10)])
    by (repeat constructor).
  split; [exact H|].
  exact (averagePoints_real_iff _ H).
Defined.

End AverageFacts.
